(** * TranslateApp: service layer and screens of [src/translate/index.tsx]

    A shallow embedding of the two client wrappers ([GeminiService],
    [StorageService]) and of the handlers of the three stateful screens,
    followed by the properties the specification states about them.

    Conventions.
    - A JavaScript string is its sequence of UTF-16 code units ([list N]);
      [str] injects an ASCII literal of the source.
    - A JavaScript object is a finite map from property names to values; objects
      live in a heap and are passed by reference.
    - An [async] function is a computation in the monad [M]: it threads the
      world (heap, effect log) and either returns or throws.  The environment
      (configuration, clock, entropy, network) is the record [Env]; every
      statement quantifies over it. *)

From Stdlib Require Import ZArith NArith Ascii String List Permutation Sorted Lia.
From stdpp Require Import base option list gmap strings fin_maps.

Set Warnings "-register-all".

Local Open Scope Z_scope.
Local Open Scope list_scope.

(** ** JavaScript strings *)

Abbreviation jsstring := (list N).

Definition str (s : string) : jsstring :=
  map N_of_ascii (list_ascii_of_string s).

(** ECMAScript WhiteSpace and LineTerminator code points, the set that
    [String.prototype.trim] removes. *)
Definition is_white_space (c : N) : bool :=
  ((c =? 0x09) || (c =? 0x0A) || (c =? 0x0B) || (c =? 0x0C) || (c =? 0x0D)
   || (c =? 0x20) || (c =? 0xA0) || (c =? 0x1680)
   || ((0x2000 <=? c) && (c <=? 0x200A))
   || (c =? 0x2028) || (c =? 0x2029) || (c =? 0x202F) || (c =? 0x205F)
   || (c =? 0x3000) || (c =? 0xFEFF))%N.

Fixpoint trimStart (s : jsstring) : jsstring :=
  match s with
  | c :: s' => if is_white_space c then trimStart s' else s
  | [] => []
  end.

Definition trimEnd (s : jsstring) : jsstring := rev (trimStart (rev s)).

(** [String.prototype.trim] *)
Definition trim (s : jsstring) : jsstring := trimEnd (trimStart s).

(** A string made of white space only. *)
Definition blank (s : jsstring) : bool := forallb is_white_space s.

(** [!s] for a string [s]: the empty string is the only falsy string. *)
Definition falsy_string (s : jsstring) : bool :=
  match s with [] => true | _ => false end.

(** [a || b] on strings where the left operand may be [undefined]. *)
Definition or_string (a : option jsstring) (b : jsstring) : jsstring :=
  match a with
  | Some s => if falsy_string s then b else s
  | None => b
  end.

(** ** Regular expressions, as far as the source uses them

    Literals, concatenation and alternation, matched at the start of the
    subject (the source's only pattern begins with [^] and has no flags). *)

Inductive regex :=
| RLit (p : jsstring)
| RSeq (r1 r2 : regex)
| RAlt (r1 r2 : regex).

Fixpoint strip_prefix (p s : jsstring) : option jsstring :=
  match p, s with
  | [], _ => Some s
  | a :: p', b :: s' => if (a =? b)%N then strip_prefix p' s' else None
  | _ :: _, [] => None
  end.

(** The remainders of [s] after each way [r] matches a prefix of [s], in the
    order a backtracking matcher tries them. *)
Fixpoint rmatch (r : regex) (s : jsstring) : list jsstring :=
  match r with
  | RLit p => match strip_prefix p s with Some rest => [rest] | None => [] end
  | RSeq r1 r2 => concat (map (rmatch r2) (rmatch r1 s))
  | RAlt r1 r2 => rmatch r1 s ++ rmatch r2 s
  end.

(** [s.replace(/^r/, replacement)]: the first match, which can only start at
    index 0, is replaced; without a match the subject is returned as it is. *)
Definition replace_at_start (r : regex) (replacement s : jsstring) : jsstring :=
  match rmatch r s with
  | rest :: _ => replacement ++ rest
  | [] => s
  end.

(** [/^data:image\/(png|jpeg|jpg|webp);base64,/] *)
Definition DATA_URI_RE : regex :=
  RSeq (RLit (str "data:image/"))
    (RSeq (RAlt (RLit (str "png"))
            (RAlt (RLit (str "jpeg"))
               (RAlt (RLit (str "jpg")) (RLit (str "webp")))))
       (RLit (str ";base64,"))).

(** ** [crypto.randomUUID]

    Modelled from the platform: a version 4 UUID (RFC 4122) rendered from 16
    random bytes as lower-case hexadecimal in the 8-4-4-4-12 layout. *)

Definition hex_digit (n : N) : N :=
  (if n mod 16 <? 10 then 0x30 + n mod 16 else 0x61 + (n mod 16 - 10))%N.

Definition hex_byte (b : N) : jsstring := [hex_digit (b / 16); hex_digit b].

Definition hex_bytes (rnd : nat -> N) (from count : nat) : jsstring :=
  concat (map (fun i => hex_byte (rnd i)) (seq from count)).

Definition uuid_v4 (rnd : nat -> N) : jsstring :=
  let rnd' i :=
    match i with
    | 6%nat => N.lor (N.land (rnd i) 0x0f) 0x40
    | 8%nat => N.lor (N.land (rnd i) 0x3f) 0x80
    | _ => rnd i
    end in
  hex_bytes rnd' 0 4 ++ str "-" ++ hex_bytes rnd' 4 2 ++ str "-"
  ++ hex_bytes rnd' 6 2 ++ str "-" ++ hex_bytes rnd' 8 2 ++ str "-"
  ++ hex_bytes rnd' 10 6.

(** ** Values and objects *)

Inductive value :=
| VUndefined
| VNull
| VBool (b : bool)
| VNum (n : Z)            (* numbers are integers here, as [Date.now()] yields *)
| VStr (s : jsstring)
| VArr (xs : list value)
| VObj (props : gmap string value).

(** ToBoolean *)
Definition truthy (v : value) : bool :=
  match v with
  | VUndefined | VNull => false
  | VBool b => b
  | VNum n => negb (n =? 0)
  | VStr s => negb (falsy_string s)
  | VArr _ | VObj _ => true
  end.

(** [a || b] *)
Definition or_value (a b : value) : value := if truthy a then a else b.

(** A heap object: its own enumerable properties. *)
Abbreviation object := (gmap string value).
Abbreviation loc := nat.

(** ** Configuration *)

(** [LANG_OPTIONS], each entry as its [code] and its [label]. *)
Definition LANG_OPTIONS : list (jsstring * jsstring) :=
  [(str "en", str "English");
   (str "ko", [0xD55C; 0xAD6D; 0xC5B4]%N);
   (str "ja", [0x65E5; 0x672C; 0x8A9E]%N);
   (str "zh", [0x4E2D; 0x6587]%N);
   (str "es", str "Espa" ++ [0xF1%N] ++ str "ol");
   (str "fr", str "Fran" ++ [0xE7%N] ++ str "ais");
   (str "de", str "Deutsch")].

(** [LANG_OPTIONS[i].label] *)
Definition LANG_label (i : nat) : jsstring :=
  match LANG_OPTIONS !! i with
  | Some option => option.2
  | None => []
  end.

(** ** The record type

    [interface TranslationRecord] and the argument type of [saveRecord],
    [Omit<TranslationRecord, 'id' | 'timestamp'>]. *)

(** ['text' | 'image' | 'camera'] *)
Inductive RecordType := type_text | type_image | type_camera.

Definition RecordType_tag (t : RecordType) : jsstring :=
  match t with
  | type_text => str "text"
  | type_image => str "image"
  | type_camera => str "camera"
  end.

Record PartialRecord := {
  p_type : RecordType;
  p_original : jsstring;
  p_translated : jsstring;
  p_sourceLang : jsstring;
  p_targetLang : jsstring;
}.

Record TranslationRecord := {
  id : jsstring;
  type : RecordType;
  original : jsstring;
  translated : jsstring;
  sourceLang : jsstring;
  targetLang : jsstring;
  timestamp : Z;
}.

(** The run-time object of a value of each type. *)
Definition obj_of_partial (p : PartialRecord) : object :=
  <["type" := VStr (RecordType_tag (p_type p))]>
  (<["original" := VStr (p_original p)]>
  (<["translated" := VStr (p_translated p)]>
  (<["sourceLang" := VStr (p_sourceLang p)]>
  (<["targetLang" := VStr (p_targetLang p)]> ∅)))).

Definition obj_of_record (r : TranslationRecord) : object :=
  <["id" := VStr (id r)]>
  (<["type" := VStr (RecordType_tag (type r))]>
  (<["original" := VStr (original r)]>
  (<["translated" := VStr (translated r)]>
  (<["sourceLang" := VStr (sourceLang r)]>
  (<["targetLang" := VStr (targetLang r)]>
  (<["timestamp" := VNum (timestamp r)]> ∅)))))).

(** ** The environment and the world *)

Inductive error :=
| Error (message : jsstring)
| TypeError (message : jsstring)
| SyntaxError (message : jsstring)
| Rejection (reason : jsstring).

(** The second argument of [fetch].  [body] is the value given to
    [JSON.stringify]; its serialisation is what travels. *)
Record RequestInit := {
  method : jsstring;
  headers : list (jsstring * jsstring);
  body : value;
}.

(** A [Response]: its [ok] flag and what [response.json()] resolves to
    ([None] when the body is not JSON and the promise rejects). *)
Record Response := {
  ok : bool;
  json : option value;
}.

Inductive FetchOutcome :=
| FetchResolved (response : Response)
| FetchRejected (e : error).

(** The argument of [client.models.generateContent]. *)
Inductive Part :=
| InlineData (mimeType data : jsstring)
| Text (prompt : jsstring).

Inductive Contents :=
| ContentsText (prompt : jsstring)
| ContentsParts (parts : list Part).

Record GenerateContentRequest := {
  model : jsstring;
  contents : Contents;
  systemInstruction : option jsstring;
}.

(** The response's [text], which may be [undefined]. *)
Inductive GenerateOutcome :=
| GenerateResolved (response_text : option jsstring)
| GenerateRejected (e : error).

Inductive event :=
| EvFetch (url : jsstring) (init : option RequestInit)
| EvGenerateContent (request : GenerateContentRequest)
| EvConsoleWarn (message : jsstring)
| EvConsoleError (message : jsstring) (e : error).

(** Network I/O is a [fetch] or a call of the generation endpoint. *)
Definition is_network (ev : event) : bool :=
  match ev with
  | EvFetch _ _ | EvGenerateContent _ => true
  | EvConsoleWarn _ | EvConsoleError _ _ => false
  end.

(** What the program cannot decide: configuration, entropy, the clock and the
    two remote endpoints.  The [nat] argument is the number of earlier
    interactions, so answers may change over time. *)
Record Env := {
  VITE_GOOGLE_SHEET_URL : option jsstring;
  random_bytes : nat -> nat -> N;
  clock : nat -> Z;
  fetch_outcome : nat -> jsstring -> option RequestInit -> FetchOutcome;
  generate_outcome : nat -> GenerateContentRequest -> GenerateOutcome;
}.

Record World := {
  heap : list object;
  log : list event;
  ticks : nat;
}.

Definition empty_world : World := {| heap := []; log := []; ticks := 0 |}.

(** ** Computations that may throw *)

Inductive Completion (A : Type) :=
| Return (a : A)
| Throw (e : error).
Arguments Return {A} a.
Arguments Throw {A} e.

Definition M (A : Type) : Type := World -> Completion A * World.

#[global] Instance M_ret : MRet M := fun A a w => (Return a, w).

#[global] Instance M_bind : MBind M := fun A B f m w =>
  match m w with
  | (Return a, w') => f a w'
  | (Throw e, w') => (Throw e, w')
  end.

Definition throw {A} (e : error) : M A := fun w => (Throw e, w).

(** [try { body } catch (error) { handler }] *)
Definition try_catch {A} (body : M A) (handler : error -> M A) : M A := fun w =>
  match body w with
  | (Return a, w') => (Return a, w')
  | (Throw e, w') => handler e w'
  end.

Definition emit (ev : event) : M unit := fun w =>
  (Return (), {| heap := heap w; log := log w ++ [ev]; ticks := S (ticks w) |}).

Definition console_warn (message : jsstring) : M unit :=
  emit (EvConsoleWarn message).

Definition console_error (message : jsstring) (e : error) : M unit :=
  emit (EvConsoleError message e).

(** An object literal or a spread: a new object at a fresh location. *)
Definition alloc (o : object) : M loc := fun w =>
  (Return (length (heap w)),
   {| heap := heap w ++ [o]; log := log w; ticks := ticks w |}).

(** Reading through a reference.  References of the program never dangle; a
    location outside the heap is reported as an error of the model. *)
Definition deref (l : loc) : M object := fun w =>
  match heap w !! l with
  | Some o => (Return o, w)
  | None => (Throw (Error (str "dangling reference")), w)
  end.

Section Services.

Variable E : Env.

Definition crypto_randomUUID : M jsstring := fun w =>
  (Return (uuid_v4 (random_bytes E (ticks w))),
   {| heap := heap w; log := log w; ticks := S (ticks w) |}).

Definition Date_now : M Z := fun w =>
  (Return (clock E (ticks w)),
   {| heap := heap w; log := log w; ticks := S (ticks w) |}).

(** [await fetch(url, init)] *)
Definition fetch (url : jsstring) (init : option RequestInit) : M Response :=
  fun w =>
    let w' := {| heap := heap w; log := log w ++ [EvFetch url init];
                 ticks := S (ticks w) |} in
    match fetch_outcome E (ticks w) url init with
    | FetchResolved r => (Return r, w')
    | FetchRejected e => (Throw e, w')
    end.

(** [await response.json()] *)
Definition response_json (r : Response) : M value :=
  match json r with
  | Some v => mret v
  | None => throw (SyntaxError (str "Unexpected token"))
  end.

(** [await this.client.models.generateContent(request)] *)
Definition generateContent (request : GenerateContentRequest)
  : M (option jsstring) :=
  fun w =>
    let w' := {| heap := heap w; log := log w ++ [EvGenerateContent request];
                 ticks := S (ticks w) |} in
    match generate_outcome E (ticks w) request with
    | GenerateResolved t => (Return t, w')
    | GenerateRejected e => (Throw e, w')
    end.

(** [v.name]: a property read.  Reading from [null] or [undefined] throws; a
    primitive or an array has no property of the names used here. *)
Definition get_property (v : value) (name : string) : M value :=
  match v with
  | VUndefined | VNull =>
      throw (TypeError (str "Cannot read properties of null"))
  | VObj props => mret (default VUndefined (props !! name))
  | VBool _ | VNum _ | VStr _ | VArr _ => mret VUndefined
  end.

(** *** [GeminiService] *)

Definition SYSTEM_PROMPT : jsstring :=
  str "You are a professional translator. Translate the input accurately. Only return the translated text, no explanations.".

Definition modelName : jsstring := str "gemini-2.5-flash".

(** The argument [translateText] passes to [generateContent]. *)
Definition translateText_request (text sourceLang targetLang : jsstring)
  : GenerateContentRequest :=
  let prompt :=
    str "Translate the following text from " ++ sourceLang
    ++ str " to " ++ targetLang ++ str ". Text: " ++ [0x22%N] ++ text
    ++ [0x22%N] in
  {| model := modelName;
     contents := ContentsText prompt;
     systemInstruction := Some SYSTEM_PROMPT |}.

Definition translateText (text sourceLang targetLang : jsstring)
  : M jsstring :=
  if falsy_string (trim text) then mret [] else
  try_catch
    (response ← generateContent
       (translateText_request text sourceLang targetLang);
     mret (or_string response (str "Translation failed.")))
    (fun error =>
       console_error (str "Translation Error:") error;;
       mret (str "Error: Could not translate text.")).

(** The argument [translateImage] passes to [generateContent]. *)
Definition translateImage_request (base64Image sourceLang targetLang : jsstring)
  : GenerateContentRequest :=
  let cleanBase64 := replace_at_start DATA_URI_RE [] base64Image in
  let prompt :=
    str "Translate all visible text in this image from " ++ sourceLang
    ++ str " to " ++ targetLang
    ++ str ". Return ONLY the translated text. If there is no text, say "
    ++ [0x22%N] ++ str "No text found" ++ [0x22%N] ++ str "." in
  {| model := modelName;
     contents := ContentsParts
       [InlineData (str "image/jpeg") cleanBase64; Text prompt];
     systemInstruction := None |}.

Definition translateImage (base64Image sourceLang targetLang : jsstring)
  : M jsstring :=
  try_catch
    (response ← generateContent
       (translateImage_request base64Image sourceLang targetLang);
     mret (or_string response (str "Analysis failed.")))
    (fun error =>
       console_error (str "Image Translation Error:") error;;
       mret (str "Error: Could not analyze image.")).

(** *** [StorageService] *)

(** [import.meta.env.VITE_GOOGLE_SHEET_URL || ""] *)
Definition SHEET_URL : jsstring := or_string (VITE_GOOGLE_SHEET_URL E) [].

(** The second argument of the [fetch] in [saveRecord]. *)
Definition save_request (newRecord : object) : RequestInit :=
  {| method := str "POST";
     headers := [(str "Content-Type", str "text/plain;charset=utf-8")];
     body := VObj (<["action" := VStr (str "save")]>
                   (<["data" := VObj newRecord]> ∅)) |}.

Definition saveRecord (record : loc) : M loc :=
  fields ← deref record;
  uuid ← crypto_randomUUID;
  now ← Date_now;
  newRecord ← alloc (<["timestamp" := VNum now]>
                     (<["id" := VStr uuid]> fields));
  if falsy_string SHEET_URL then
    console_warn (str "GOOGLE_SHEET_URL is missing in .env");;
    mret newRecord
  else
    try_catch
      (data ← deref newRecord;
       _ ← fetch SHEET_URL (Some (save_request data));
       mret ())
      (fun error =>
         console_error (str "Failed to save to Google Sheet:") error);;
    mret newRecord.

Definition getRecords : M value :=
  if falsy_string SHEET_URL then mret (VArr []) else
  try_catch
    (response ← fetch SHEET_URL None;
     if negb (ok response)
     then throw (Error (str "Network response was not ok"))
     else
       json_ ← response_json response;
       data ← get_property json_ "data";
       mret (or_value data (VArr [])))
    (fun error =>
       console_error (str "Failed to fetch records:") error;;
       mret (VArr [])).

End Services.

(** ** [Array.prototype.sort]

    Modelled from the platform: a stable comparison sort.  [cmp a b > 0] puts
    [b] before [a]; elements that compare as [0] keep their order. *)

Fixpoint sort_insert {A} (cmp : A -> A -> Z) (x : A) (l : list A) : list A :=
  match l with
  | [] => [x]
  | y :: l' => if 0 <? cmp x y then y :: sort_insert cmp x l' else x :: l
  end.

Definition Array_sort {A} (cmp : A -> A -> Z) (xs : list A) : list A :=
  foldr (sort_insert cmp) [] xs.

(** ** Reading a fetched value at the type [TranslationRecord[]]

    TypeScript checks nothing at run time; the screens below are modelled on
    values that have the declared type. *)

Definition as_string (v : option value) : option jsstring :=
  match v with Some (VStr s) => Some s | _ => None end.

Definition as_number (v : option value) : option Z :=
  match v with Some (VNum n) => Some n | _ => None end.

Definition as_RecordType (v : option value) : option RecordType :=
  s ← as_string v;
  if decide (s = str "text") then Some type_text
  else if decide (s = str "image") then Some type_image
  else if decide (s = str "camera") then Some type_camera
  else None.

Definition as_record (v : value) : option TranslationRecord :=
  match v with
  | VObj o =>
      id_ ← as_string (o !! "id");
      type_ ← as_RecordType (o !! "type");
      original_ ← as_string (o !! "original");
      translated_ ← as_string (o !! "translated");
      sourceLang_ ← as_string (o !! "sourceLang");
      targetLang_ ← as_string (o !! "targetLang");
      timestamp_ ← as_number (o !! "timestamp");
      Some {| id := id_; type := type_; original := original_;
              translated := translated_; sourceLang := sourceLang_;
              targetLang := targetLang_; timestamp := timestamp_ |}
  | _ => None
  end.

Definition as_records (v : value) : option (list TranslationRecord) :=
  match v with
  | VArr xs => mapM as_record xs
  | _ => None
  end.

(** ** 1. The text screen *)

Module TextTranslator.

Record State := {
  input : jsstring;
  output : jsstring;
  sourceLang : jsstring;
  targetLang : jsstring;
  loading : bool;
}.

Definition setLoading (b : bool) (st : State) : State :=
  {| input := input st; output := output st; sourceLang := sourceLang st;
     targetLang := targetLang st; loading := b |}.

Definition setOutput (s : jsstring) (st : State) : State :=
  {| input := input st; output := s; sourceLang := sourceLang st;
     targetLang := targetLang st; loading := loading st |}.

Section Handlers.

Variable E : Env.

Definition handleTranslate (st : State) : M State :=
  if falsy_string (input st) then mret st else
  let st := setLoading true st in
  result ← translateText E (input st) (sourceLang st) (targetLang st);
  let st := setOutput result st in
  record ← alloc (obj_of_partial
    {| p_type := type_text;
       p_original := input st;
       p_translated := result;
       p_sourceLang := sourceLang st;
       p_targetLang := targetLang st |});
  _ ← saveRecord E record;
  mret (setLoading false st).

End Handlers.

Definition initial : State :=
  {| input := []; output := [];
     sourceLang := LANG_label 0; targetLang := LANG_label 1;
     loading := false |}.

Definition setInput (s : jsstring) (st : State) : State :=
  {| input := s; output := output st; sourceLang := sourceLang st;
     targetLang := targetLang st; loading := loading st |}.

(** The submit button is [disabled={loading || !input}]. *)
Definition submit_disabled (st : State) : bool :=
  loading st || falsy_string (input st).

End TextTranslator.

(** ** 3. The history screen *)

Module HistoryView.

Record State := {
  records : list TranslationRecord;
  selected : option TranslationRecord;
  loading : bool;
}.

Definition setLoading (b : bool) (st : State) : State :=
  {| records := records st; selected := selected st; loading := b |}.

Definition setRecords (rs : list TranslationRecord) (st : State) : State :=
  {| records := rs; selected := selected st; loading := loading st |}.

Section Handlers.

Variable E : Env.

(** [getRecords] is declared to return [TranslationRecord[]]; a fetched
    value that is not of that type is outside what is modelled here and is
    reported as a [TypeError]. *)
Definition fetchHistory (st : State) : M State :=
  let st := setLoading true st in
  fetched ← getRecords E;
  match as_records fetched with
  | Some data =>
      let sorted := Array_sort (fun a b => timestamp b - timestamp a) data in
      let st := setRecords sorted st in
      mret (setLoading false st)
  | None => throw (TypeError (str "not a TranslationRecord[]"))
  end.

End Handlers.

Definition setSelected (r : option TranslationRecord) (st : State) : State :=
  {| records := records st; selected := r; loading := loading st |}.

(** The list view shows "No history yet." when
    [!loading && records.length === 0]. *)
Definition shows_empty_state (st : State) : bool :=
  negb (loading st) && (length (records st) =? 0)%nat.

(** The heading shows the spinner when [loading]. *)
Definition shows_spinner (st : State) : bool := loading st.

End HistoryView.

(** ** 2. The image screen (upload and camera) *)

Module ImageTranslator.

(** ['upload' | 'camera'] *)
Inductive Mode := mode_upload | mode_camera.

(** A [MediaStreamTrack]: whether its [readyState] is ["live"], and how often
    [stop()] has been called on it. *)
Record MediaStreamTrack := {
  live : bool;
  stop_calls : nat;
}.

(** [t.stop()] *)
Definition stop (t : MediaStreamTrack) : MediaStreamTrack :=
  {| live := false; stop_calls := S (stop_calls t) |}.

Definition fresh_track : MediaStreamTrack := {| live := true; stop_calls := 0 |}.

Abbreviation MediaStream := (list MediaStreamTrack).

(** The [<video>] element; [srcObject] names a stream by its position among
    the streams the device has handed out. *)
Record HTMLVideoElement := {
  srcObject : option nat;
}.

Record State := {
  mode : Mode;
  image : option jsstring;
  output : jsstring;
  sourceLang : jsstring;
  targetLang : jsstring;
  loading : bool;
  isCameraActive : bool;
  videoRef : option HTMLVideoElement;   (* videoRef.current *)
  canvasRef : bool;                     (* canvasRef.current is not null *)
}.

Definition setImage (v : option jsstring) (st : State) : State :=
  {| mode := mode st; image := v; output := output st;
     sourceLang := sourceLang st; targetLang := targetLang st;
     loading := loading st; isCameraActive := isCameraActive st;
     videoRef := videoRef st; canvasRef := canvasRef st |}.

Definition setOutput (s : jsstring) (st : State) : State :=
  {| mode := mode st; image := image st; output := s;
     sourceLang := sourceLang st; targetLang := targetLang st;
     loading := loading st; isCameraActive := isCameraActive st;
     videoRef := videoRef st; canvasRef := canvasRef st |}.

Definition setLoading (b : bool) (st : State) : State :=
  {| mode := mode st; image := image st; output := output st;
     sourceLang := sourceLang st; targetLang := targetLang st;
     loading := b; isCameraActive := isCameraActive st;
     videoRef := videoRef st; canvasRef := canvasRef st |}.

Definition setIsCameraActive (b : bool) (st : State) : State :=
  {| mode := mode st; image := image st; output := output st;
     sourceLang := sourceLang st; targetLang := targetLang st;
     loading := loading st; isCameraActive := b;
     videoRef := videoRef st; canvasRef := canvasRef st |}.

Definition set_videoRef (v : option HTMLVideoElement) (st : State) : State :=
  {| mode := mode st; image := image st; output := output st;
     sourceLang := sourceLang st; targetLang := targetLang st;
     loading := loading st; isCameraActive := isCameraActive st;
     videoRef := v; canvasRef := canvasRef st |}.

(** The prop [mode] of a kept instance changes. *)
Definition set_mode (m : Mode) (st : State) : State :=
  {| mode := m; image := image st; output := output st;
     sourceLang := sourceLang st; targetLang := targetLang st;
     loading := loading st; isCameraActive := isCameraActive st;
     videoRef := videoRef st; canvasRef := canvasRef st |}.

Definition same_mode (a b : Mode) : bool :=
  match a, b with
  | mode_upload, mode_upload | mode_camera, mode_camera => true
  | _, _ => false
  end.

Definition set_canvasRef (b : bool) (st : State) : State :=
  {| mode := mode st; image := image st; output := output st;
     sourceLang := sourceLang st; targetLang := targetLang st;
     loading := loading st; isCameraActive := isCameraActive st;
     videoRef := videoRef st; canvasRef := b |}.

(** [!image] for [image : string | null] *)
Definition no_image (v : option jsstring) : bool :=
  match v with
  | Some s => falsy_string s
  | None => true
  end.

Section Handlers.

Variable E : Env.

Definition handleTranslate (st : State) : M State :=
  match image st with
  | None => mret st
  | Some img =>
      if falsy_string img then mret st else
      let st := setLoading true st in
      result ← translateImage E img (sourceLang st) (targetLang st);
      let st := setOutput result st in
      record ← alloc (obj_of_partial
        {| p_type := match mode st with
                     | mode_upload => type_image
                     | mode_camera => type_camera
                     end;
           p_original := img;
           p_translated := result;
           p_sourceLang := sourceLang st;
           p_targetLang := targetLang st |});
      _ ← saveRecord E record;
      mret (setLoading false st)
  end.

End Handlers.

(** [handleFileUpload]: [file] is [e.target.files?.[0]].  With a file, a
    read is started (the second component) and the output is cleared. *)
Definition handleFileUpload {File} (file : option File) (st : State)
  : State * bool :=
  match file with
  | Some _ => (setOutput [] st, true)
  | None => (st, false)
  end.

(** [reader.onloadend]: [result] is [reader.result], [null] after a failed
    read. *)
Definition onloadend (result : option jsstring) (st : State) : State :=
  setImage result st.

(** The "Analyze & Translate" button is rendered when [image && !loading]. *)
Definition shows_translate_button (st : State) : bool :=
  negb (no_image (image st)) && negb (loading st).

(** *** Camera handlers

    [streams] holds every stream [getUserMedia] has resolved with.
    [startCamera] is split at its [await]. *)

Definition stop_all (stream : MediaStream) : MediaStream := map stop stream.

(** [stream.getTracks().forEach(t => t.stop())] on the stream at [s]. *)
Definition stop_stream (s : nat) (streams : list MediaStream)
  : list MediaStream :=
  alter stop_all s streams.

(** [startCamera], up to the call of [getUserMedia]. *)
Definition startCamera_begin (st : State) : State :=
  setOutput [] (setImage None (setIsCameraActive true st)).

(** [startCamera], after [getUserMedia] resolved with the stream at [s]. *)
Definition startCamera_resolved (s : nat) (st : State) : State :=
  match videoRef st with
  | Some _ => set_videoRef (Some {| srcObject := Some s |}) st
  | None => st
  end.

(** [startCamera], after [getUserMedia] rejected: alert, then deactivate. *)
Definition startCamera_rejected (st : State) : State :=
  setIsCameraActive false st.

(** [captureImage].  [context] tells whether [getContext('2d')] returned a
    context, [dataUrl] is what [toDataURL('image/jpeg')] returns. *)
Definition captureImage (context : bool) (dataUrl : jsstring)
    (st : State) (streams : list MediaStream) : State * list MediaStream :=
  match videoRef st with
  | Some video =>
      if canvasRef st && context then
        let st := setIsCameraActive false (setImage (Some dataUrl) st) in
        match srcObject video with
        | Some s => (st, stop_stream s streams)
        | None => (st, streams)
        end
      else (st, streams)
  | None => (st, streams)
  end.

(** The function the effect returns. *)
Definition cleanup (st : State) (streams : list MediaStream)
  : list MediaStream :=
  match videoRef st with
  | Some video =>
      match srcObject video with
      | Some s => stop_stream s streams
      | None => streams
      end
  | None => streams
  end.

(** The [X] button on the preview. *)
Definition clear_preview (st : State) : State * bool :=
  let st := setImage None st in
  match mode st with
  | mode_camera => (startCamera_begin st, true)
  | mode_upload => (st, false)
  end.

(** *** The screen in the page

    React renders the [<video>] exactly when
    [mode === 'camera' && isCameraActive], and keeps [videoRef.current] in
    step with it when it commits a render.

    Modelled from the platform (React 18, [createRoot]): the refs of
    elements that leave the page are set to [null] when the change is
    committed; the cleanup of an effect runs after that, both when the screen
    is unmounted and when a dependency of the effect has changed.  [App]
    renders the screen at one position for both image tabs, so going from
    one of them to the other keeps the instance and its state and only
    changes [mode]. *)

Definition video_rendered (st : State) : bool :=
  match mode st with
  | mode_camera => isCameraActive st
  | mode_upload => false
  end.

(** The buttons of the preview area.  The JSX shows the capture button with
    the video, else the [X] button with an image, else (in camera mode) the
    button that starts the camera. *)
Inductive Button := CaptureButton | ClearButton | StartButton.

Definition shows (st : State) (b : Button) : bool :=
  if video_rendered st then
    match b with CaptureButton => true | _ => false end
  else if negb (no_image (image st)) then
    match b with ClearButton => true | _ => false end
  else
    match mode st, b with
    | mode_camera, StartButton => true
    | _, _ => false
    end.

Definition commit (st : State) : State :=
  if video_rendered st then
    match videoRef st with
    | Some _ => st
    | None => set_videoRef (Some {| srcObject := None |}) st
    end
  else set_videoRef None st.

(** Nothing is rendered for a screen that has been unmounted. *)
Definition render (is_mounted : bool) (st : State) : State :=
  if is_mounted then commit st else st.

Record Page := {
  component : State;
  mounted : bool;
  streams : list MediaStream;
  pending : nat;     (* calls of getUserMedia that have not settled *)
}.

(** [Mount m]: [App] renders the screen with [mode = m].  From another tab
    this mounts it; from the other image tab it re-renders the kept
    instance. *)
Inductive Event :=
| Mount (m : Mode)
| GetUserMediaResolved (tracks : nat)   (* a new stream of live tracks *)
| GetUserMediaRejected
| Capture (context : bool) (dataUrl : jsstring)
| ClearPreview
| StartCameraButton
| Unmount.

Definition initial (m : Mode) : State :=
  {| mode := m; image := None; output := [];
     sourceLang := LANG_label 0; targetLang := LANG_label 1;
     loading := false; isCameraActive := false;
     videoRef := None; canvasRef := true |}.

Definition step (p : Page) (ev : Event) : Page :=
  match ev with
  | Mount m =>
      if mounted p then
        if same_mode m (mode (component p)) then p else
        (* [mode] changed: commit, then the old cleanup, then the effect *)
        let st := commit (set_mode m (component p)) in
        let ss := cleanup st (streams p) in
        match m with
        | mode_camera =>
            {| component := commit (startCamera_begin st);
               mounted := true; streams := ss; pending := S (pending p) |}
        | mode_upload =>
            {| component := st;
               mounted := true; streams := ss; pending := pending p |}
        end
      else
      match m with
      | mode_camera =>
          {| component := commit (startCamera_begin (initial m));
             mounted := true; streams := streams p; pending := S (pending p) |}
      | mode_upload =>
          {| component := commit (initial m);
             mounted := true; streams := streams p; pending := pending p |}
      end
  | GetUserMediaResolved tracks =>
      match pending p with
      | S n =>
          {| component := render (mounted p)
                            (startCamera_resolved (length (streams p))
                               (component p));
             mounted := mounted p;
             streams := streams p ++ [replicate tracks fresh_track];
             pending := n |}
      | O => p
      end
  | GetUserMediaRejected =>
      match pending p with
      | S n =>
          {| component := render (mounted p)
                            (startCamera_rejected (component p));
             mounted := mounted p; streams := streams p; pending := n |}
      | O => p
      end
  | Capture context dataUrl =>
      if mounted p && shows (component p) CaptureButton then
        let '(st, ss) := captureImage context dataUrl (component p) (streams p) in
        {| component := commit st; mounted := true; streams := ss;
           pending := pending p |}
      else p
  | ClearPreview =>
      if mounted p && shows (component p) ClearButton then
        let '(st, started) := clear_preview (component p) in
        {| component := commit st; mounted := true; streams := streams p;
           pending := if started then S (pending p) else pending p |}
      else p
  | StartCameraButton =>
      if mounted p && shows (component p) StartButton then
        {| component := commit (startCamera_begin (component p));
           mounted := true; streams := streams p; pending := S (pending p) |}
      else p
  | Unmount =>
      if mounted p then
        (* the refs are detached, then the cleanup runs *)
        let st := set_canvasRef false (set_videoRef None (component p)) in
        {| component := st;
           mounted := false;
           streams := cleanup st (streams p);
           pending := pending p |}
      else p
  end.

Definition run (evs : list Event) : Page :=
  fold_left step evs
    {| component := initial mode_upload; mounted := false;
       streams := []; pending := 0 |}.

Definition is_active (stream : MediaStream) : bool := existsb live stream.

(** The streams handed out by the device that still have a live track. *)
Definition active_streams (p : Page) : list MediaStream :=
  filter (fun s => is_active s = true) (streams p).

(** The stream on the mounted video element, if there is one. *)
Definition attached (st : State) : option nat :=
  match videoRef st with
  | Some video => srcObject video
  | None => None
  end.

(** A track that is live and was never stopped, or has ended by one call of
    [stop]. *)
Definition live_or_stopped_once (t : MediaStreamTrack) : Prop :=
  t = fresh_track \/ t = stop fresh_track.

(** What every page that can arise satisfies: each track is live or was
    stopped once, the stream on the video element has live tracks only, and
    a video element is referenced only while the screen is mounted and
    renders it. *)
Definition page_inv (p : Page) : Prop :=
  Forall (Forall live_or_stopped_once) (streams p) /\
  (forall s, attached (component p) = Some s ->
     exists stream, streams p !! s = Some stream /\
                    Forall (eq fresh_track) stream) /\
  (videoRef (component p) <> None ->
   mounted p = true /\ video_rendered (component p) = true).

End ImageTranslator.

(** ** Sample environments and inputs, used to exercise the statements *)

(** No endpoint configured, no network. *)
Definition env_offline : Env :=
  {| VITE_GOOGLE_SHEET_URL := None;
     random_bytes := fun _ i => N.of_nat (17 * i);
     clock := fun _ => 1700000000000;
     fetch_outcome := fun _ _ _ =>
       FetchRejected (TypeError (str "Failed to fetch"));
     generate_outcome := fun _ _ =>
       GenerateRejected (Rejection (str "offline")) |}.

(** Both endpoints configured and answering: the store with [stored], the
    model with [answer]. *)
Definition env_online (stored : Response) (answer : option jsstring) : Env :=
  {| VITE_GOOGLE_SHEET_URL := Some (str "https://script.example/exec");
     random_bytes := fun _ i => N.of_nat (17 * i);
     clock := fun _ => 1700000000000;
     fetch_outcome := fun _ _ _ => FetchResolved stored;
     generate_outcome := fun _ _ => GenerateResolved answer |}.

(** The store is configured but unreachable. *)
Definition env_store_down : Env :=
  {| VITE_GOOGLE_SHEET_URL := Some (str "https://script.example/exec");
     random_bytes := fun _ i => N.of_nat (17 * i);
     clock := fun _ => 1700000000000;
     fetch_outcome := fun _ _ _ =>
       FetchRejected (TypeError (str "Failed to fetch"));
     generate_outcome := fun _ _ =>
       GenerateRejected (Rejection (str "offline")) |}.

(** ** Vocabulary of the statements about images *)

(** The strings a regular expression matches in full. *)
Inductive matches : regex -> jsstring -> Prop :=
| matches_lit p : matches (RLit p) p
| matches_seq r1 r2 p1 p2 :
    matches r1 p1 -> matches r2 p2 -> matches (RSeq r1 r2) (p1 ++ p2)
| matches_alt_l r1 r2 p : matches r1 p -> matches (RAlt r1 r2) p
| matches_alt_r r1 r2 p : matches r2 p -> matches (RAlt r1 r2) p.

(** The four prefixes the pattern of [translateImage] matches. *)
Definition recognised_prefixes : list jsstring :=
  map (fun format => str "data:image/" ++ format ++ str ";base64,")
    [str "png"; str "jpeg"; str "jpg"; str "webp"].

(** A string that begins with the prefix of a base64 data URI,
    [data:<media type>;base64,]. *)
Definition begins_with_data_uri_prefix (s : jsstring) : Prop :=
  exists mediatype rest, s = str "data:" ++ mediatype ++ str ";base64," ++ rest.

(** The inline images handed to the generation endpoint, oldest first, each
    as its [mimeType] and its [data]. *)
Definition inline_images (request : GenerateContentRequest)
  : list (jsstring * jsstring) :=
  match contents request with
  | ContentsParts parts =>
      flat_map (fun part =>
                  match part with
                  | InlineData mimeType data => [(mimeType, data)]
                  | Text _ => []
                  end) parts
  | ContentsText _ => []
  end.

Definition sent_images (evs : list event) : list (jsstring * jsstring) :=
  flat_map (fun ev =>
              match ev with
              | EvGenerateContent request => inline_images request
              | _ => []
              end) evs.

(** ** Vocabulary of the statements about records *)

(** The record [saveRecord] makes of [p], given the identifier and the time
    it drew. *)
Definition completed (p : PartialRecord) (uuid : jsstring) (now : Z)
  : TranslationRecord :=
  {| id := uuid;
     type := p_type p;
     original := p_original p;
     translated := p_translated p;
     sourceLang := p_sourceLang p;
     targetLang := p_targetLang p;
     timestamp := now |}.

(** The events logged between two worlds. *)
Definition logged (w w' : World) : list event := drop (length (log w)) (log w').

Definition no_network (evs : list event) : Prop :=
  Forall (fun ev => is_network ev = false) evs.

Definition hello : PartialRecord :=
  {| p_type := type_text;
     p_original := str "Hello";
     p_translated := str "Hallo";
     p_sourceLang := str "English";
     p_targetLang := str "Deutsch" |}.

(** A world whose heap holds the object literal of [hello] at location 0. *)
Definition world_hello : World :=
  {| heap := [obj_of_partial hello]; log := []; ticks := 0 |}.

(** ** Vocabulary of the statements about the history *)

(** A record as the store returns it. *)
Definition record_value (r : TranslationRecord) : value :=
  VObj (obj_of_record r).

(** Newest first. *)
Definition newer_or_equal (a b : TranslationRecord) : Prop :=
  timestamp b <= timestamp a.

(** Three stored records, saved at 100, 300 and 200. *)
Definition stored_history : list TranslationRecord :=
  [completed hello (str "a") 100;
   completed hello (str "b") 300;
   completed hello (str "c") 200].

Definition store_with_history : Response :=
  {| ok := true;
     json := Some (VObj {["data" := VArr (map record_value stored_history)]}) |}.

Definition history_initial : HistoryView.State :=
  {| HistoryView.records := [];
     HistoryView.selected := None;
     HistoryView.loading := false |}.

(** ** Sample screens *)

(** The text screen with [input] typed and the default languages. *)
Definition text_screen (input : jsstring) : TextTranslator.State :=
  TextTranslator.setInput input TextTranslator.initial.

(** The image screen in upload mode with [img] loaded. *)
Definition upload_screen (img : jsstring) : ImageTranslator.State :=
  ImageTranslator.setImage (Some img)
    (ImageTranslator.initial ImageTranslator.mode_upload).

(** ** Vocabulary of the statements about effects *)

(** The network calls among some events, in order. *)
Definition network_events (evs : list event) : list event :=
  List.filter is_network evs.

(** A partial record that already carries an [id] and a [timestamp] of the
    caller's. *)
Definition hello_with_id : object :=
  <["id" := VStr (str "mine")]>
  (<["timestamp" := VNum 1]> (obj_of_partial hello)).

(** A history that is already newest first. *)
Definition sorted_history : list TranslationRecord :=
  [completed hello (str "b") 300;
   completed hello (str "c") 200;
   completed hello (str "a") 100].

(** The objects allocated between two worlds, oldest first. *)
Definition created (w w' : World) : list object :=
  drop (length (heap w)) (heap w').

(** * Properties *)

(** ** Strings *)

Lemma trimStart_nil (s : jsstring) : trimStart s = [] <-> blank s = true.
Proof.
  induction s as [|c s IH]; simpl.
  - split; reflexivity.
  - destruct (is_white_space c); simpl.
    + exact IH.
    + split; discriminate.
Qed.

Lemma blank_trimStart (s : jsstring) : blank (trimStart s) = blank s.
Proof.
  induction s as [|c s IH]; simpl; [reflexivity|].
  destruct (is_white_space c) eqn:Hc; simpl.
  - exact IH.
  - now rewrite Hc.
Qed.

Lemma blank_app (s t : jsstring) : blank (s ++ t) = blank s && blank t.
Proof. apply forallb_app. Qed.

Lemma blank_rev (s : jsstring) : blank (rev s) = blank s.
Proof.
  induction s as [|c s IH]; simpl; [reflexivity|].
  rewrite blank_app, IH. simpl. rewrite andb_true_r. apply andb_comm.
Qed.

Lemma rev_nil_iff {A} (l : list A) : rev l = [] <-> l = [].
Proof.
  split; intros H.
  - apply (f_equal (@rev A)) in H. now rewrite rev_involutive in H.
  - now subst.
Qed.

(** [trim] leaves nothing exactly of the strings made of white space only. *)
Lemma trim_nil (s : jsstring) : trim s = [] <-> blank s = true.
Proof.
  unfold trim, trimEnd.
  rewrite rev_nil_iff, trimStart_nil, blank_rev, blank_trimStart.
  reflexivity.
Qed.

Lemma falsy_string_true (s : jsstring) : falsy_string s = true <-> s = [].
Proof. destruct s; simpl; split; congruence. Qed.

Lemma falsy_string_false (s : jsstring) : falsy_string s = false <-> s <> [].
Proof. destruct s; simpl; split; congruence. Qed.

Lemma falsy_trim (s : jsstring) : falsy_string (trim s) = blank s.
Proof.
  destruct (blank s) eqn:Hb.
  - apply falsy_string_true, trim_nil, Hb.
  - apply falsy_string_false. intros H. apply trim_nil in H. congruence.
Qed.

(** ** C3 *)

(** Claim C3.  For every text made of white space only (the empty string
    included) and every pair of languages, [translateText] returns the empty
    string and leaves the world as it found it: nothing is logged, so the
    generation endpoint is not called. *)
Theorem translateText_blank (E : Env) (text sourceLang targetLang : jsstring)
    (w : World) :
  blank text = true ->
  translateText E text sourceLang targetLang w = (Return [], w).
Proof.
  intros Hb. unfold translateText. rewrite falsy_trim, Hb. reflexivity.
Qed.

Lemma translateText_blank_witness :
  blank [0x09; 0x20; 0xA0]%N = true /\
  translateText env_offline [0x09; 0x20; 0xA0]%N (str "English") (str "Deutsch")
    empty_world = (Return [], empty_world).
Proof.
  split; [reflexivity|].
  apply (translateText_blank env_offline); reflexivity.
Defined.

(** ** The translation client: what each outcome of the endpoint turns into *)

Ltac run_M :=
  unfold mbind, M_bind, mret, M_ret, try_catch, throw, console_error,
    console_warn, emit; simpl.

(** What [translateText] returns, by cases on the endpoint's answer. *)
Lemma translateText_cases (E : Env) (text sourceLang targetLang : jsstring)
    (w : World) :
  translateText E text sourceLang targetLang w =
  if blank text then (Return [], w) else
  let request := translateText_request text sourceLang targetLang in
  match generate_outcome E (ticks w) request with
  | GenerateResolved t =>
      (Return (or_string t (str "Translation failed.")),
       {| heap := heap w; log := log w ++ [EvGenerateContent request];
          ticks := S (ticks w) |})
  | GenerateRejected e =>
      (Return (str "Error: Could not translate text."),
       {| heap := heap w;
          log := (log w ++ [EvGenerateContent request])
                 ++ [EvConsoleError (str "Translation Error:") e];
          ticks := S (S (ticks w)) |})
  end.
Proof.
  unfold translateText. rewrite falsy_trim.
  destruct (blank text); [reflexivity|].
  run_M. unfold generateContent.
  destruct (generate_outcome E (ticks w) _); reflexivity.
Qed.

Lemma translateImage_cases (E : Env) (base64Image sourceLang targetLang : jsstring)
    (w : World) :
  translateImage E base64Image sourceLang targetLang w =
  let request := translateImage_request base64Image sourceLang targetLang in
  match generate_outcome E (ticks w) request with
  | GenerateResolved t =>
      (Return (or_string t (str "Analysis failed.")),
       {| heap := heap w; log := log w ++ [EvGenerateContent request];
          ticks := S (ticks w) |})
  | GenerateRejected e =>
      (Return (str "Error: Could not analyze image."),
       {| heap := heap w;
          log := (log w ++ [EvGenerateContent request])
                 ++ [EvConsoleError (str "Image Translation Error:") e];
          ticks := S (S (ticks w)) |})
  end.
Proof.
  unfold translateImage. run_M. unfold generateContent.
  destruct (generate_outcome E (ticks w) _); reflexivity.
Qed.

(** ** C4 *)

(** Claim C4.  [translateText] and [translateImage] return a string in every
    world and for every behaviour of the endpoint; neither throws.  When the
    endpoint rejects the request, the result is the fixed string
    "Error: Could not translate text." (text) or
    "Error: Could not analyze image." (image).  When it answers without a
    text, the result is "Translation failed." (text) or "Analysis failed."
    (image). *)
Theorem translate_never_throws (E : Env)
    (text base64Image sourceLang targetLang : jsstring) (w : World) :
  let text_call := translateText E text sourceLang targetLang w in
  let image_call := translateImage E base64Image sourceLang targetLang w in
  let text_request := translateText_request text sourceLang targetLang in
  let image_request := translateImage_request base64Image sourceLang targetLang in
  (exists s w', text_call = (Return s, w')) /\
  (exists s w', image_call = (Return s, w')) /\
  (forall e, blank text = false ->
     generate_outcome E (ticks w) text_request = GenerateRejected e ->
     text_call.1 = Return (str "Error: Could not translate text.")) /\
  (forall e,
     generate_outcome E (ticks w) image_request = GenerateRejected e ->
     image_call.1 = Return (str "Error: Could not analyze image.")) /\
  (blank text = false ->
     generate_outcome E (ticks w) text_request = GenerateResolved None ->
     text_call.1 = Return (str "Translation failed.")) /\
  (generate_outcome E (ticks w) image_request = GenerateResolved None ->
     image_call.1 = Return (str "Analysis failed.")).
Proof.
  cbv zeta. rewrite translateText_cases, translateImage_cases. cbv zeta.
  repeat split.
  - destruct (blank text); [eauto|].
    destruct (generate_outcome E (ticks w) _); eauto.
  - destruct (generate_outcome E (ticks w) _); eauto.
  - intros e -> ->. reflexivity.
  - intros e ->. reflexivity.
  - intros -> ->. reflexivity.
  - intros ->. reflexivity.
Qed.

Lemma translate_never_throws_witness :
  (translateText env_offline (str "Hello") (str "English") (str "Deutsch")
     empty_world).1 = Return (str "Error: Could not translate text.") /\
  (translateImage (env_online {| ok := true; json := None |} None)
     (str "data:image/png;base64,iVBORw0KGgo=") (str "English") (str "Deutsch")
     empty_world).1 = Return (str "Analysis failed.").
Proof.
  split.
  - apply (translate_never_throws env_offline (str "Hello") []
             (str "English") (str "Deutsch") empty_world)
      with (e := Rejection (str "offline")); reflexivity.
  - apply (translate_never_throws
             (env_online {| ok := true; json := None |} None) []
             (str "data:image/png;base64,iVBORw0KGgo=")
             (str "English") (str "Deutsch") empty_world); reflexivity.
Defined.

(** ** The pattern of [translateImage] *)

Lemma strip_prefix_Some (p s rest : jsstring) :
  strip_prefix p s = Some rest <-> s = p ++ rest.
Proof.
  revert s. induction p as [|a p IH]; intros s; simpl.
  - split; congruence.
  - destruct s as [|b s]; [split; discriminate|].
    destruct (N.eqb_spec a b) as [->|Hne].
    + rewrite IH. split; congruence.
    + split; [discriminate | congruence].
Qed.

Lemma strip_prefix_app (p rest : jsstring) :
  strip_prefix p (p ++ rest) = Some rest.
Proof. now apply strip_prefix_Some. Qed.

(** Every remainder [rmatch] reports is what a match leaves over. *)
Lemma rmatch_sound (r : regex) : forall s rest,
  In rest (rmatch r s) -> exists p, matches r p /\ s = p ++ rest.
Proof.
  induction r as [p | r1 IH1 r2 IH2 | r1 IH1 r2 IH2]; intros s rest Hin;
    simpl in Hin.
  - destruct (strip_prefix p s) as [rest'|] eqn:Hs; [|destruct Hin].
    destruct Hin as [<-|[]]. apply strip_prefix_Some in Hs.
    exists p. split; [constructor | exact Hs].
  - apply in_concat in Hin. destruct Hin as (l & Hl & Hrest).
    apply in_map_iff in Hl. destruct Hl as (mid & <- & Hmid).
    destruct (IH1 _ _ Hmid) as (p1 & Hp1 & ->).
    destruct (IH2 _ _ Hrest) as (p2 & Hp2 & ->).
    exists (p1 ++ p2). split; [now constructor | now rewrite <- app_assoc].
  - apply in_app_iff in Hin. destruct Hin as [Hin|Hin].
    + destruct (IH1 _ _ Hin) as (p & Hp & ->). exists p.
      split; [now apply matches_alt_l | reflexivity].
    + destruct (IH2 _ _ Hin) as (p & Hp & ->). exists p.
      split; [now apply matches_alt_r | reflexivity].
Qed.

(** Every match is found. *)
Lemma rmatch_complete (r : regex) : forall p rest,
  matches r p -> In rest (rmatch r (p ++ rest)).
Proof.
  intros p rest Hm. revert rest.
  induction Hm as [p | r1 r2 p1 p2 _ IH1 _ IH2 | r1 r2 p _ IH | r1 r2 p _ IH];
    intros rest; simpl.
  - rewrite strip_prefix_app. now left.
  - apply in_concat. exists (rmatch r2 (p2 ++ rest)). split; [|apply IH2].
    apply in_map_iff. exists (p2 ++ rest). split; [reflexivity|].
    rewrite <- app_assoc. apply IH1.
  - apply in_app_iff. left. apply IH.
  - apply in_app_iff. right. apply IH.
Qed.

(** The pattern matches the four recognised prefixes and nothing else. *)
Lemma matches_DATA_URI_RE (p : jsstring) :
  matches DATA_URI_RE p <-> In p recognised_prefixes.
Proof.
  split.
  - unfold DATA_URI_RE. intros H.
    inversion H as [| ? ? p1 p2 H1 H2 | |]; subst; clear H.
    inversion H1; subst; clear H1.
    inversion H2 as [| ? ? p3 p4 H3 H4 | |]; subst; clear H2.
    inversion H4; subst; clear H4.
    repeat match goal with
           | H : matches (RAlt _ _) _ |- _ => inversion H; subst; clear H
           | H : matches (RLit _) _ |- _ => inversion H; subst; clear H
           end; simpl; tauto.
  - intros H. simpl in H.
    destruct H as [<-|[<-|[<-|[<-|[]]]]];
      unfold DATA_URI_RE;
      (apply (matches_seq _ _ (str "data:image/")); [constructor|]).
    + apply (matches_seq _ _ (str "png")); [|constructor].
      apply matches_alt_l. constructor.
    + apply (matches_seq _ _ (str "jpeg")); [|constructor].
      apply matches_alt_r, matches_alt_l. constructor.
    + apply (matches_seq _ _ (str "jpg")); [|constructor].
      apply matches_alt_r, matches_alt_r, matches_alt_l. constructor.
    + apply (matches_seq _ _ (str "webp")); [|constructor].
      apply matches_alt_r, matches_alt_r, matches_alt_r. constructor.
Qed.

(** What [cleanBase64] is: the input without its recognised prefix, or the
    input itself when it has none. *)
Lemma cleanBase64_recognised (p rest : jsstring) :
  In p recognised_prefixes ->
  replace_at_start DATA_URI_RE [] (p ++ rest) = rest.
Proof.
  intros H. simpl in H.
  destruct H as [<-|[<-|[<-|[<-|[]]]]]; reflexivity.
Qed.

Lemma cleanBase64_unrecognised (s : jsstring) :
  (forall p rest, In p recognised_prefixes -> s <> p ++ rest) ->
  replace_at_start DATA_URI_RE [] s = s.
Proof.
  intros Hno. unfold replace_at_start.
  destruct (rmatch DATA_URI_RE s) as [|rest l] eqn:Hm; [reflexivity|].
  destruct (rmatch_sound DATA_URI_RE s rest) as (p & Hp & Hs).
  - rewrite Hm. now left.
  - apply matches_DATA_URI_RE in Hp. now destruct (Hno p rest Hp).
Qed.

Lemma sent_images_app (l1 l2 : list event) :
  sent_images (l1 ++ l2) = sent_images l1 ++ sent_images l2.
Proof. apply flat_map_app. Qed.

(** [translateImage] hands exactly one image to the endpoint: [cleanBase64],
    under the type [image/jpeg]. *)
Lemma translateImage_sends (E : Env) (base64Image sourceLang targetLang : jsstring)
    (w : World) :
  sent_images (log (translateImage E base64Image sourceLang targetLang w).2) =
  sent_images (log w)
  ++ [(str "image/jpeg", replace_at_start DATA_URI_RE [] base64Image)].
Proof.
  rewrite translateImage_cases. cbv zeta.
  destruct (generate_outcome E (ticks w) _); simpl log;
    rewrite ?sent_images_app; simpl; rewrite ?app_nil_r; reflexivity.
Qed.

(** ** C5 *)

(** Claim C5, as stated, fails: a GIF data URI reaches the endpoint with its
    prefix.  The only image handed over is the input itself, which begins
    with [data:image/gif;base64,]. *)
Lemma translateImage_forwards_gif_prefix :
  let img := str "data:image/gif;base64,R0lGODlhAQABAAAAACw=" in
  sent_images
    (log (translateImage env_offline img (str "English") (str "Deutsch")
            empty_world).2)
  = [(str "image/jpeg", img)]
  /\ begins_with_data_uri_prefix img.
Proof.
  split.
  - reflexivity.
  - exists (str "image/gif"), (str "R0lGODlhAQABAAAAACw="). reflexivity.
Qed.

(** Claim C5, amended.  For every image input, [translateImage] hands one
    image to the endpoint.  When the input begins with one of the four
    recognised prefixes, [data:image/png;base64,], [data:image/jpeg;base64,],
    [data:image/jpg;base64,] or [data:image/webp;base64,], the data sent is
    what follows that prefix; when it begins with none of them, the data
    sent is the input as it is. *)
Theorem translateImage_strips_recognised_prefix (E : Env)
    (base64Image sourceLang targetLang : jsstring) (w : World) :
  exists data,
    sent_images
      (log (translateImage E base64Image sourceLang targetLang w).2)
    = sent_images (log w) ++ [(str "image/jpeg", data)] /\
    (forall p rest,
       In p recognised_prefixes -> base64Image = p ++ rest -> data = rest) /\
    ((forall p rest, In p recognised_prefixes -> base64Image <> p ++ rest) ->
     data = base64Image).
Proof.
  exists (replace_at_start DATA_URI_RE [] base64Image).
  split; [apply translateImage_sends|]. split.
  - intros p rest Hp ->. now apply cleanBase64_recognised.
  - apply cleanBase64_unrecognised.
Qed.

Lemma translateImage_strips_recognised_prefix_witness :
  exists data,
    sent_images
      (log (translateImage env_offline
              (str "data:image/webp;base64,UklGRg==")
              (str "English") (str "Deutsch") empty_world).2)
    = [(str "image/jpeg", data)] /\
    data = str "UklGRg==".
Proof.
  destruct (translateImage_strips_recognised_prefix env_offline
              (str "data:image/webp;base64,UklGRg==")
              (str "English") (str "Deutsch") empty_world)
    as (data & Hsent & Hstrip & _).
  exists data. split; [exact Hsent|].
  apply (Hstrip (str "data:image/webp;base64,")).
  - simpl. tauto.
  - reflexivity.
Defined.

(** ** C10 *)

(** Claim C10.  For every image input, the image part [translateImage] hands
    to the endpoint is labelled [image/jpeg]: whatever the input is, exactly
    one image is sent during the call and its [mimeType] is [image/jpeg]. *)
Theorem translateImage_labels_jpeg (E : Env)
    (base64Image sourceLang targetLang : jsstring) (w : World) :
  let w' := (translateImage E base64Image sourceLang targetLang w).2 in
  exists data,
    sent_images (log w') = sent_images (log w) ++ [(str "image/jpeg", data)] /\
    Forall (fun sent => sent.1 = str "image/jpeg")
      (sent_images (drop (length (log w)) (log w'))).
Proof.
  cbv zeta. eexists. split; [apply translateImage_sends|].
  rewrite translateImage_cases. cbv zeta.
  destruct (generate_outcome E (ticks w) _); simpl log;
    rewrite <- ?app_assoc, drop_app_length; simpl;
    repeat constructor.
Qed.

(** A PNG and a WebP upload both travel as [image/jpeg]. *)
Example translateImage_png_and_webp_as_jpeg :
  sent_images
    (log (translateImage env_offline (str "data:image/png;base64,iVBORw0KGgo=")
            (str "English") (str "Deutsch") empty_world).2)
  = [(str "image/jpeg", str "iVBORw0KGgo=")] /\
  sent_images
    (log (translateImage env_offline (str "data:image/webp;base64,UklGRg==")
            (str "English") (str "Deutsch") empty_world).2)
  = [(str "image/jpeg", str "UklGRg==")].
Proof. split; reflexivity. Qed.

(** ** [saveRecord] *)

Lemma uuid_v4_length (rnd : nat -> N) : length (uuid_v4 rnd) = 36%nat.
Proof. reflexivity. Qed.

Lemma completed_object (p : PartialRecord) (uuid : jsstring) (now : Z) :
  <["timestamp" := VNum now]> (<["id" := VStr uuid]> (obj_of_partial p))
  = obj_of_record (completed p uuid now).
Proof.
  apply map_eq. intros k. unfold obj_of_partial, obj_of_record, completed.
  simpl. rewrite !lookup_insert. repeat case_decide; subst; try done.
Qed.

(** What [saveRecord] does, for every environment: it allocates one object,
    the spread of the argument with [id] and [timestamp] set, and returns
    its location; without an endpoint it only warns, with one it fetches
    once and, should that fail, logs the failure. *)
Lemma saveRecord_spec (E : Env) (record : loc) (fields : object) (w : World) :
  heap w !! record = Some fields ->
  let newRecord :=
    <["timestamp" := VNum (clock E (S (ticks w)))]>
    (<["id" := VStr (uuid_v4 (random_bytes E (ticks w)))]> fields) in
  exists evs n,
    saveRecord E record w =
      (Return (length (heap w)),
       {| heap := heap w ++ [newRecord]; log := log w ++ evs; ticks := n |})
    /\ (SHEET_URL E = [] ->
        evs = [EvConsoleWarn (str "GOOGLE_SHEET_URL is missing in .env")])
    /\ (SHEET_URL E <> [] ->
        exists rest,
          evs = EvFetch (SHEET_URL E) (Some (save_request newRecord)) :: rest
          /\ no_network rest).
Proof.
  intros Hrec newRecord. unfold saveRecord, deref, crypto_randomUUID, Date_now,
    alloc, fetch.
  run_M. rewrite Hrec. simpl.
  destruct (falsy_string (SHEET_URL E)) eqn:Hurl; simpl.
  - apply falsy_string_true in Hurl.
    eexists _, _. split; [reflexivity|]. split; [reflexivity|]. congruence.
  - apply falsy_string_false in Hurl.
    rewrite list_lookup_middle by reflexivity. simpl.
    fold newRecord.
    destruct (fetch_outcome E _ _ _) as [response|e]; simpl.
    + exists [EvFetch (SHEET_URL E) (Some (save_request newRecord))].
      eexists. split; [reflexivity|]. split; [congruence|].
      intros _. exists []. split; [reflexivity | constructor].
    + exists [EvFetch (SHEET_URL E) (Some (save_request newRecord));
              EvConsoleError (str "Failed to save to Google Sheet:") e].
      eexists. rewrite <- app_assoc. split; [reflexivity|]. split; [congruence|].
      intros _. eexists. split; [reflexivity|]. repeat constructor.
Qed.

Lemma logged_app (w : World) (h : list object) (evs : list event) (n : nat) :
  logged w {| heap := h; log := log w ++ evs; ticks := n |} = evs.
Proof. unfold logged. simpl. apply drop_app_length. Qed.

(** ** C1 *)

(** Claim C1.  For every partial record, in every environment (endpoint
    configured or not, remote write succeeding or failing), [saveRecord]
    returns and does not throw; what it returns is a complete
    [TranslationRecord]: the caller's five fields, an [id] that is not empty
    (a 36-character UUID) and a [timestamp] (the clock's reading).  The record
    depends on the input, the entropy and the clock only, not on the
    network.  When no endpoint is configured, nothing that happens during the
    call is network I/O. *)
Theorem saveRecord_returns_complete_record (E : Env) (record : loc)
    (p : PartialRecord) (w : World) :
  heap w !! record = Some (obj_of_partial p) ->
  exists newRecord w' r,
    saveRecord E record w = (Return newRecord, w') /\
    heap w' !! newRecord = Some (obj_of_record r) /\
    r = completed p (uuid_v4 (random_bytes E (ticks w)))
          (clock E (S (ticks w))) /\
    id r <> [] /\ length (id r) = 36%nat /\
    (SHEET_URL E = [] -> no_network (logged w w')).
Proof.
  intros Hrec.
  destruct (saveRecord_spec E record _ w Hrec) as (evs & n & Hrun & Hoff & _).
  eexists _, _, _. split; [exact Hrun|].
  split; [|split; [reflexivity|]].
  - simpl. rewrite list_lookup_middle by reflexivity.
    now rewrite completed_object.
  - simpl. split; [|split].
    + intros H. apply (f_equal (@length N)) in H. discriminate.
    + reflexivity.
    + intros Hurl. rewrite logged_app, (Hoff Hurl). repeat constructor.
Qed.

Lemma saveRecord_returns_complete_record_witness :
  heap world_hello !! 0%nat = Some (obj_of_partial hello) /\
  (exists newRecord w' r,
     saveRecord env_offline 0 world_hello = (Return newRecord, w') /\
     heap w' !! newRecord = Some (obj_of_record r) /\
     r = completed hello (uuid_v4 (random_bytes env_offline 0))
           (clock env_offline 1) /\
     id r <> [] /\ length (id r) = 36%nat /\
     (SHEET_URL env_offline = [] -> no_network (logged world_hello w'))) /\
  (exists newRecord w' r,
     saveRecord env_store_down 0 world_hello = (Return newRecord, w') /\
     heap w' !! newRecord = Some (obj_of_record r) /\
     r = completed hello (uuid_v4 (random_bytes env_store_down 0))
           (clock env_store_down 1) /\
     id r <> [] /\ length (id r) = 36%nat /\
     (SHEET_URL env_store_down = [] -> no_network (logged world_hello w'))).
Proof.
  split; [reflexivity|]. split.
  - apply (saveRecord_returns_complete_record env_offline 0 hello world_hello).
    reflexivity.
  - apply (saveRecord_returns_complete_record env_store_down 0 hello
             world_hello).
    reflexivity.
Defined.

(** The identifier drawn in the sample environments. *)
Example uuid_v4_sample :
  uuid_v4 (random_bytes env_offline 0)
  = str "00112233-4455-4677-8899-aabbccddeeff".
Proof. reflexivity. Qed.

(** ** C9 *)

(** Claim C9.  For every object passed to [saveRecord], the object returned
    has the caller's [type], [original], [translated], [sourceLang] and
    [targetLang] (and every other property but [id] and [timestamp]) with
    the values the caller gave; its properties are the caller's together
    with [id] and [timestamp]; it is a new object, and every object that
    existed before the call, the caller's included, is as it was. *)
Theorem saveRecord_frame (E : Env) (record : loc) (fields : object)
    (w : World) :
  heap w !! record = Some fields ->
  exists newRecord w' fields',
    saveRecord E record w = (Return newRecord, w') /\
    heap w' !! newRecord = Some fields' /\
    Forall (fun k => fields' !! k = fields !! k)
      ["type"; "original"; "translated"; "sourceLang"; "targetLang"] /\
    (forall k : string,
       k <> "id" -> k <> "timestamp" -> fields' !! k = fields !! k) /\
    dom fields' = {["id"; "timestamp"]} ∪ dom fields /\
    newRecord <> record /\
    heap w' !! record = Some fields /\
    (forall l o, heap w !! l = Some o -> heap w' !! l = Some o).
Proof.
  intros Hrec.
  destruct (saveRecord_spec E record _ w Hrec) as (evs & n & Hrun & _).
  eexists _, _, _. split; [exact Hrun|]. simpl.
  split; [apply list_lookup_middle; reflexivity|].
  assert (Hother : forall k : string, k <> "id" -> k <> "timestamp" ->
            (<["timestamp" := VNum (clock E (S (ticks w)))]>
             (<["id" := VStr (uuid_v4 (random_bytes E (ticks w)))]> fields))
              !! k = fields !! k).
  { intros k Hid Hts. now rewrite !lookup_insert_ne by congruence. }
  split; [|split; [exact Hother|]].
  - repeat constructor; apply Hother; discriminate.
  - split; [|split; [|split]].
    + rewrite !dom_insert_L. apply set_eq. intros k.
      rewrite !elem_of_union, !elem_of_singleton. tauto.
    + apply lookup_lt_Some in Hrec. lia.
    + now apply lookup_app_l_Some.
    + intros l o Hl. now apply lookup_app_l_Some.
Qed.

Lemma saveRecord_frame_witness :
  heap world_hello !! 0%nat = Some (obj_of_partial hello) /\
  exists newRecord w' fields',
    saveRecord env_store_down 0 world_hello = (Return newRecord, w') /\
    heap w' !! newRecord = Some fields' /\
    fields' !! "original" = Some (VStr (str "Hello")) /\
    fields' !! "translated" = Some (VStr (str "Hallo")) /\
    heap w' !! 0%nat = Some (obj_of_partial hello).
Proof.
  split; [reflexivity|].
  destruct (saveRecord_frame env_store_down 0 (obj_of_partial hello)
              world_hello eq_refl)
    as (newRecord & w' & fields' & Hrun & Hnew & _ & Hother & _ & _ & Hold & _).
  exists newRecord, w', fields'.
  split; [exact Hrun|]. split; [exact Hnew|].
  split; [|split; [|exact Hold]].
  - rewrite (Hother "original") by done. reflexivity.
  - rewrite (Hother "translated") by done. reflexivity.
Defined.

(** ** [getRecords] *)

(** What [getRecords] returns, by cases on the configuration and on the
    answer of the store. *)
Lemma getRecords_value (E : Env) (w : World) :
  exists w',
    getRecords E w =
    (Return
       (if falsy_string (SHEET_URL E) then VArr [] else
        match fetch_outcome E (ticks w) (SHEET_URL E) None with
        | FetchRejected _ => VArr []
        | FetchResolved r =>
            if negb (ok r) then VArr [] else
            match json r with
            | Some (VObj props) =>
                or_value (default VUndefined (props !! "data")) (VArr [])
            | _ => VArr []
            end
        end), w')
    /\ (SHEET_URL E = [] -> w' = w).
Proof.
  unfold getRecords.
  destruct (falsy_string (SHEET_URL E)) eqn:Hurl.
  - exists w. split; reflexivity.
  - apply falsy_string_false in Hurl.
    unfold fetch, response_json, get_property. run_M.
    destruct (fetch_outcome E (ticks w) (SHEET_URL E) None) as [r|e]; simpl.
    + destruct (ok r); simpl; [|eexists; split; [reflexivity | congruence]].
      destruct (json r) as [[| | | | | |props]|]; simpl;
        eexists; (split; [reflexivity | congruence]).
    + eexists; split; [reflexivity | congruence].
Qed.

(** ** C2 *)

(** Claim C2.  [getRecords] returns in every world and never throws.  It
    returns the empty array when no endpoint is configured (and then leaves
    the world untouched), when the request fails, when the response is not
    [ok], and when the body is not JSON.  When the response is [ok] and its
    body is an object whose [data] is an array, that array is what it
    returns. *)
Theorem getRecords_never_throws (E : Env) (w : World) :
  let outcome := fetch_outcome E (ticks w) (SHEET_URL E) None in
  exists v w',
    getRecords E w = (Return v, w') /\
    (SHEET_URL E = [] -> v = VArr [] /\ w' = w) /\
    (forall e, outcome = FetchRejected e -> v = VArr []) /\
    (forall r, outcome = FetchResolved r -> ok r = false -> v = VArr []) /\
    (forall r, outcome = FetchResolved r -> json r = None -> v = VArr []) /\
    (forall r props xs,
       SHEET_URL E <> [] -> outcome = FetchResolved r -> ok r = true ->
       json r = Some (VObj props) -> props !! "data" = Some (VArr xs) ->
       v = VArr xs).
Proof.
  cbv zeta. destruct (getRecords_value E w) as (w' & Hrun & Hsame).
  eexists _, w'. split; [exact Hrun|].
  destruct (falsy_string (SHEET_URL E)) eqn:Hurl.
  - apply falsy_string_true in Hurl. repeat split; auto. congruence.
  - apply falsy_string_false in Hurl.
    split; [congruence|]. split; [|split; [|split]].
    + intros e ->. reflexivity.
    + intros r -> ->. reflexivity.
    + intros r -> ->. now destruct (ok r).
    + intros r props xs _ -> -> -> ->. reflexivity.
Qed.

Lemma getRecords_never_throws_witness :
  let stored :=
    {| ok := true;
       json := Some (VObj {["data" := VArr [VObj (obj_of_record
                 (completed hello (str "a") 100))]]}) |} in
  (getRecords (env_online stored None) empty_world).1
    = Return (VArr [VObj (obj_of_record (completed hello (str "a") 100))])
  /\ (getRecords (env_online {| ok := false; json := None |} None)
        empty_world).1 = Return (VArr [])
  /\ (getRecords env_store_down empty_world).1 = Return (VArr [])
  /\ getRecords env_offline empty_world = (Return (VArr []), empty_world).
Proof.
  cbv zeta. split; [|split; [|split]].
  - destruct (getRecords_never_throws
                (env_online
                   {| ok := true;
                      json := Some (VObj {["data" := VArr [VObj (obj_of_record
                                (completed hello (str "a") 100))]]}) |} None)
                empty_world)
      as (v & w' & -> & _ & _ & _ & _ & Hdata).
    simpl. f_equal. eapply Hdata; try reflexivity. discriminate.
  - destruct (getRecords_never_throws
                (env_online {| ok := false; json := None |} None) empty_world)
      as (v & w' & -> & _ & _ & Hbad & _).
    simpl. f_equal. eapply Hbad; reflexivity.
  - destruct (getRecords_never_throws env_store_down empty_world)
      as (v & w' & -> & _ & Hrej & _).
    simpl. f_equal. eapply Hrej; reflexivity.
  - destruct (getRecords_never_throws env_offline empty_world)
      as (v & w' & -> & Hoff & _).
    destruct Hoff as [-> ->]; reflexivity.
Defined.

(** A body without [data], or with a falsy [data], reads as no records; a
    body that is [null] makes the property read throw, which is caught. *)
Example getRecords_without_data :
  (getRecords (env_online {| ok := true; json := Some (VObj ∅) |} None)
     empty_world).1 = Return (VArr []) /\
  (getRecords (env_online {| ok := true; json := Some VNull |} None)
     empty_world).1 = Return (VArr []).
Proof. split; reflexivity. Qed.

(** ** Sorting newest first *)

Section Sorting.

Context {A : Type} (cmp : A -> A -> Z).

Lemma sort_insert_perm (x : A) (l : list A) :
  Permutation (x :: l) (sort_insert cmp x l).
Proof.
  induction l as [|y l IH]; simpl; [reflexivity|].
  destruct (0 <? cmp x y); [|reflexivity].
  rewrite perm_swap. now constructor.
Qed.

Lemma Array_sort_perm (l : list A) : Permutation l (Array_sort cmp l).
Proof.
  induction l as [|x l IH]; simpl; [constructor|].
  rewrite <- sort_insert_perm. now constructor.
Qed.

(** Inserting [x] moves it past elements that satisfy [P] only if [x] does
    not: the elements that satisfy [P] keep the order they had. *)
Lemma sort_insert_filter (P : A -> Prop) `{!forall a, Decision (P a)}
    (x : A) (l : list A) :
  (forall y, P x -> P y -> cmp x y <= 0) ->
  filter P (sort_insert cmp x l) = filter P (x :: l).
Proof.
  intros Htie. induction l as [|y l IH]; simpl; [reflexivity|].
  destruct (0 <? cmp x y) eqn:Hc; [|reflexivity].
  apply Z.ltb_lt in Hc.
  rewrite (filter_cons _ y), IH, !(filter_cons _ x), (filter_cons _ y).
  destruct (decide (P x)) as [Hx|Hx]; [|reflexivity].
  destruct (decide (P y)) as [Hy|Hy]; [|reflexivity].
  specialize (Htie y Hx Hy). lia.
Qed.

End Sorting.

Lemma sort_insert_newest_first (x : TranslationRecord)
    (l : list TranslationRecord) :
  StronglySorted newer_or_equal l ->
  StronglySorted newer_or_equal
    (sort_insert (fun a b => timestamp b - timestamp a) x l).
Proof.
  induction 1 as [|y l Hl IH Hy]; simpl.
  - repeat constructor.
  - destruct (0 <? timestamp y - timestamp x) eqn:Hc.
    + apply Z.ltb_lt in Hc. constructor; [exact IH|].
      rewrite <- sort_insert_perm. constructor; [|exact Hy].
      unfold newer_or_equal. lia.
    + apply Z.ltb_ge in Hc. constructor; [now constructor|].
      constructor; [unfold newer_or_equal; lia|].
      eapply Forall_impl; [exact Hy|].
      unfold newer_or_equal. intros z Hz. simpl in Hz. lia.
Qed.

Lemma Array_sort_newest_first (l : list TranslationRecord) :
  StronglySorted newer_or_equal
    (Array_sort (fun a b => timestamp b - timestamp a) l).
Proof.
  induction l as [|x l IH]; simpl; [constructor|].
  now apply sort_insert_newest_first.
Qed.

(** Records saved at the same time stay in the order they were fetched. *)
Lemma Array_sort_stable (t : Z) (l : list TranslationRecord) :
  filter (fun r => timestamp r = t)
    (Array_sort (fun a b => timestamp b - timestamp a) l)
  = filter (fun r => timestamp r = t) l.
Proof.
  induction l as [|x l IH]; simpl; [reflexivity|].
  rewrite sort_insert_filter.
  - rewrite !filter_cons, IH. reflexivity.
  - intros y Hx Hy. lia.
Qed.

Lemma as_record_value (r : TranslationRecord) :
  as_record (record_value r) = Some r.
Proof.
  destruct r as [i t o tr sl tl ts]. destruct t; reflexivity.
Qed.

Lemma as_records_values (rs : list TranslationRecord) :
  as_records (VArr (map record_value rs)) = Some rs.
Proof.
  simpl. induction rs as [|r rs IH]; [reflexivity|].
  simpl map. cbn [mapM]. rewrite as_record_value, IH. reflexivity.
Qed.

(** ** C6 *)

(** Claim C6.  Whatever list of records the store returns, the history
    screen stores it sorted by [timestamp], newest first: the stored list is
    a rearrangement of the fetched one, every record in it is at least as
    new as all that follow, and records with equal timestamps keep their
    fetched order, so the timestamp alone decides.  Records fetched with
    timestamps 100, 300, 200 are stored as 300, 200, 100.  The loading flag
    is cleared. *)
Theorem fetchHistory_newest_first (E : Env) (st : HistoryView.State)
    (w w' : World) (data : list TranslationRecord) :
  getRecords E w = (Return (VArr (map record_value data)), w') ->
  exists st',
    HistoryView.fetchHistory E st w = (Return st', w') /\
    HistoryView.loading st' = false /\
    Permutation data (HistoryView.records st') /\
    StronglySorted newer_or_equal (HistoryView.records st') /\
    (forall t,
       filter (fun r => timestamp r = t) (HistoryView.records st')
       = filter (fun r => timestamp r = t) data) /\
    (map timestamp data = [100; 300; 200] ->
     map timestamp (HistoryView.records st') = [300; 200; 100]).
Proof.
  intros Hget. unfold HistoryView.fetchHistory. run_M.
  rewrite Hget, as_records_values. simpl.
  eexists. split; [reflexivity|]. simpl.
  split; [reflexivity|].
  split; [apply Array_sort_perm|].
  split; [apply Array_sort_newest_first|].
  split; [intros t; apply Array_sort_stable|].
  intros Hts.
  destruct data as [|a [|b [|c [|d data]]]]; try discriminate.
  injection Hts as Ha Hb Hc. simpl.
  repeat (progress (rewrite ?Ha, ?Hb, ?Hc; simpl)). reflexivity.
Qed.

Lemma fetchHistory_newest_first_witness :
  let E := env_online store_with_history None in
  getRecords E empty_world
  = (Return (VArr (map record_value stored_history)),
     (getRecords E empty_world).2)
  /\ exists st',
       (HistoryView.fetchHistory E history_initial empty_world).1 = Return st'
       /\ map timestamp (HistoryView.records st') = [300; 200; 100]
       /\ map id (HistoryView.records st') = [str "b"; str "c"; str "a"].
Proof.
  cbv zeta. split; [reflexivity|].
  destruct (fetchHistory_newest_first (env_online store_with_history None)
              history_initial empty_world
              (getRecords (env_online store_with_history None) empty_world).2
              stored_history eq_refl)
    as (st' & Hrun & _ & _ & _ & _ & Horder).
  exists st'. split; [now rewrite Hrun|].
  split; [apply Horder; reflexivity|].
  vm_compute in Hrun. injection Hrun as <-. reflexivity.
Defined.

(** ** Records the screens create *)

Lemma or_string_nonempty (a : option jsstring) (b : jsstring) :
  b <> [] -> or_string a b <> [].
Proof.
  intros Hb. destruct a as [[|c s]|]; simpl; [exact Hb | discriminate | exact Hb].
Qed.

(** The object literal followed by [saveRecord]: two objects are allocated,
    the literal and the completed record; nothing else in the heap changes
    and nothing is thrown. *)
Lemma alloc_saveRecord (E : Env) (p : PartialRecord) (w : World) :
  exists w',
    (alloc (obj_of_partial p) ≫= saveRecord E) w
      = (Return (S (length (heap w))), w') /\
    heap w' = heap w
              ++ [obj_of_partial p;
                  obj_of_record
                    (completed p (uuid_v4 (random_bytes E (ticks w)))
                       (clock E (S (ticks w))))].
Proof.
  unfold mbind, M_bind, alloc at 1.
  set (w1 := {| heap := heap w ++ [obj_of_partial p]; log := log w;
                ticks := ticks w |}).
  destruct (saveRecord_spec E (length (heap w)) (obj_of_partial p) w1)
    as (evs & n & Hrun & _).
  { simpl. apply list_lookup_middle. reflexivity. }
  rewrite Hrun. eexists. split.
  - simpl. rewrite length_app. simpl. rewrite Nat.add_1_r. reflexivity.
  - simpl. rewrite completed_object, <- app_assoc. reflexivity.
Qed.

(** [translateText] and [translateImage] leave the heap alone and return a
    string; the string is empty only for [translateText] on a blank text. *)
Lemma translateText_result (E : Env) (text sourceLang targetLang : jsstring)
    (w : World) :
  exists result w1,
    translateText E text sourceLang targetLang w = (Return result, w1) /\
    heap w1 = heap w /\
    (blank text = false -> result <> []).
Proof.
  rewrite translateText_cases.
  destruct (blank text); [eexists _, _; repeat split; discriminate|].
  cbv zeta. destruct (generate_outcome E (ticks w) _) as [t|e];
    eexists _, _; (split; [reflexivity|]); (split; [reflexivity|]); intros _.
  - now apply or_string_nonempty.
  - discriminate.
Qed.

Lemma translateImage_result (E : Env) (base64Image sourceLang targetLang : jsstring)
    (w : World) :
  exists result w1,
    translateImage E base64Image sourceLang targetLang w = (Return result, w1) /\
    heap w1 = heap w /\
    result <> [].
Proof.
  rewrite translateImage_cases.
  cbv zeta. destruct (generate_outcome E (ticks w) _) as [t|e];
    eexists _, _; (split; [reflexivity|]); (split; [reflexivity|]).
  - now apply or_string_nonempty.
  - discriminate.
Qed.

(** The text screen: with an empty input nothing happens; otherwise one
    record is created, with the input as [original] and the result of
    [translateText] as [translated]. *)
Lemma TextTranslator_handleTranslate_spec (E : Env)
    (st : TextTranslator.State) (w : World) :
  let input := TextTranslator.input st in
  let call := translateText E input (TextTranslator.sourceLang st)
                (TextTranslator.targetLang st) w in
  exists st' w',
    TextTranslator.handleTranslate E st w = (Return st', w') /\
    if falsy_string input then st' = st /\ w' = w
    else
      exists result p r,
        call.1 = Return result /\
        TextTranslator.output st' = result /\
        TextTranslator.loading st' = false /\
        heap w' = heap w ++ [obj_of_partial p; obj_of_record r] /\
        type r = type_text /\ original r = input /\ translated r = result /\
        sourceLang r = TextTranslator.sourceLang st /\
        targetLang r = TextTranslator.targetLang st.
Proof.
  cbv zeta. unfold TextTranslator.handleTranslate.
  destruct (falsy_string (TextTranslator.input st)) eqn:Hin.
  - eexists _, _. split; [reflexivity|]. split; reflexivity.
  - simpl.
    destruct (translateText_result E (TextTranslator.input st)
                (TextTranslator.sourceLang st) (TextTranslator.targetLang st) w)
      as (result & w1 & Hcall & Hheap & _).
    unfold mbind at 1, M_bind at 1. rewrite Hcall.
    match goal with
    | |- context [alloc (obj_of_partial ?p)] =>
        destruct (alloc_saveRecord E p w1) as (w' & Hsave & Hheap')
    end.
    unfold mbind, M_bind in *.
    destruct (alloc _ w1) as [[record|e] w2]; [|discriminate].
    rewrite Hsave. run_M.
    eexists _, w'. split; [reflexivity|].
    eexists result, _, _. rewrite Hheap', Hheap.
    repeat (split; [reflexivity|]). reflexivity.
Qed.

(** The image screen: without an image nothing happens; otherwise one record
    is created, with the image as [original] and the result of
    [translateImage] as [translated]. *)
Lemma ImageTranslator_handleTranslate_spec (E : Env)
    (st : ImageTranslator.State) (w : World) :
  exists st' w',
    ImageTranslator.handleTranslate E st w = (Return st', w') /\
    match ImageTranslator.image st with
    | None => st' = st /\ w' = w
    | Some img =>
        if falsy_string img then st' = st /\ w' = w
        else
          exists result p r,
            (translateImage E img (ImageTranslator.sourceLang st)
               (ImageTranslator.targetLang st) w).1 = Return result /\
            ImageTranslator.output st' = result /\
            ImageTranslator.loading st' = false /\
            heap w' = heap w ++ [obj_of_partial p; obj_of_record r] /\
            type r = match ImageTranslator.mode st with
                     | ImageTranslator.mode_upload => type_image
                     | ImageTranslator.mode_camera => type_camera
                     end /\
            original r = img /\ translated r = result /\
            sourceLang r = ImageTranslator.sourceLang st /\
            targetLang r = ImageTranslator.targetLang st
    end.
Proof.
  unfold ImageTranslator.handleTranslate.
  destruct (ImageTranslator.image st) as [img|];
    [|eexists _, _; split; [reflexivity|]; split; reflexivity].
  destruct (falsy_string img) eqn:Himg;
    [eexists _, _; split; [reflexivity|]; split; reflexivity|].
  simpl.
  destruct (translateImage_result E img (ImageTranslator.sourceLang st)
              (ImageTranslator.targetLang st) w)
    as (result & w1 & Hcall & Hheap & _).
  unfold mbind at 1, M_bind at 1. rewrite Hcall.
  match goal with
  | |- context [alloc (obj_of_partial ?p)] =>
      destruct (alloc_saveRecord E p w1) as (w' & Hsave & Hheap')
  end.
  unfold mbind, M_bind in *.
  destruct (alloc _ w1) as [[record|e] w2]; [|discriminate].
  rewrite Hsave. run_M.
  eexists _, w'. split; [reflexivity|].
  eexists result, _, _. rewrite Hheap', Hheap.
  repeat (split; [reflexivity|]). reflexivity.
Qed.

(** ** C7 *)

(** Claim C7, as stated, fails: submitting a single space on the text screen
    creates a record whose [translated] is the empty string.  The input is
    not empty, so the handler goes on; [translateText] trims it and returns
    the empty string; the record is saved with it. *)
Lemma handleTranslate_space_saves_empty_translation :
  let run :=
    TextTranslator.handleTranslate env_offline (text_screen (str " "))
      empty_world in
  let p :=
    {| p_type := type_text; p_original := str " "; p_translated := [];
       p_sourceLang := LANG_label 0; p_targetLang := LANG_label 1 |} in
  let r :=
    completed p (str "00112233-4455-4677-8899-aabbccddeeff") 1700000000000 in
  TextTranslator.submit_disabled (text_screen (str " ")) = false /\
  run.1 = Return (TextTranslator.setLoading false (text_screen (str " "))) /\
  heap run.2 = [obj_of_partial p; obj_of_record r] /\
  original r = str " " /\
  translated r = [].
Proof.
  cbv zeta. split; [reflexivity|]. split; [reflexivity|].
  split; [vm_compute; reflexivity|]. split; reflexivity.
Qed.

Lemma obj_of_record_inj (r r' : TranslationRecord) :
  obj_of_record r = obj_of_record r' -> r = r'.
Proof.
  intros H. apply (f_equal (fun o => as_record (VObj o))) in H.
  change (as_record (record_value r) = as_record (record_value r')) in H.
  rewrite !as_record_value in H. congruence.
Qed.

Lemma obj_of_partial_not_record (p : PartialRecord) (r : TranslationRecord) :
  obj_of_partial p <> obj_of_record r.
Proof.
  intros H. apply (f_equal (fun o : object => o !! "id")) in H.
  unfold obj_of_partial, obj_of_record in H.
  rewrite lookup_insert_eq in H.
  rewrite !lookup_insert_ne in H by done. rewrite lookup_empty in H.
  discriminate.
Qed.

(** The records among the two objects a handler allocates. *)
Lemma created_record (w w' : World) (p : PartialRecord)
    (r0 r : TranslationRecord) :
  heap w' = heap w ++ [obj_of_partial p; obj_of_record r0] ->
  In (obj_of_record r) (created w w') -> r = r0.
Proof.
  intros Hheap Hin. unfold created in Hin.
  rewrite Hheap, drop_app_length in Hin.
  destruct Hin as [H|[H|[]]].
  - now apply obj_of_partial_not_record in H.
  - symmetry. now apply obj_of_record_inj.
Qed.

Lemma created_nothing (w : World) : created w w = [].
Proof. unfold created. apply drop_all. Qed.

(** Claim C7, amended.  Every record a screen creates has an [original]
    that is not empty.  Its [translated] is not empty on the image screen,
    and on the text screen whenever the input has a character that is not
    white space.  When the endpoint rejects the request, [translated] is
    the fixed error text; when it answers without a text, [translated] is
    the fixed failure text.  A screen without input creates nothing; a
    screen with input creates exactly one record. *)
Theorem created_records_nonempty (E : Env) (w : World) :
  (forall st : TextTranslator.State,
     let input := TextTranslator.input st in
     let outcome :=
       generate_outcome E (ticks w)
         (translateText_request input (TextTranslator.sourceLang st)
            (TextTranslator.targetLang st)) in
     exists st' w',
       TextTranslator.handleTranslate E st w = (Return st', w') /\
       (input = [] -> created w w' = []) /\
       (input <> [] ->
        exists p r, created w w' = [obj_of_partial p; obj_of_record r]) /\
       forall r, In (obj_of_record r) (created w w') ->
         original r = input /\ original r <> [] /\
         (blank input = false ->
          translated r <> [] /\
          (forall e, outcome = GenerateRejected e ->
             translated r = str "Error: Could not translate text.") /\
          (outcome = GenerateResolved None ->
             translated r = str "Translation failed."))) /\
  (forall st : ImageTranslator.State,
     exists st' w',
       ImageTranslator.handleTranslate E st w = (Return st', w') /\
       (ImageTranslator.no_image (ImageTranslator.image st) = true ->
        created w w' = []) /\
       (ImageTranslator.no_image (ImageTranslator.image st) = false ->
        exists p r, created w w' = [obj_of_partial p; obj_of_record r]) /\
       forall r, In (obj_of_record r) (created w w') ->
         exists img,
           let outcome :=
             generate_outcome E (ticks w)
               (translateImage_request img (ImageTranslator.sourceLang st)
                  (ImageTranslator.targetLang st)) in
           ImageTranslator.image st = Some img /\
           original r = img /\ original r <> [] /\
           translated r <> [] /\
           (forall e, outcome = GenerateRejected e ->
              translated r = str "Error: Could not analyze image.") /\
           (outcome = GenerateResolved None ->
              translated r = str "Analysis failed.")).
Proof.
  split.
  - intros st input outcome. subst input outcome.
    destruct (TextTranslator_handleTranslate_spec E st w)
      as (st' & w' & Hrun & Hspec).
    cbv zeta in Hspec. exists st', w'. split; [exact Hrun|].
    destruct (falsy_string (TextTranslator.input st)) eqn:Hin.
    + apply falsy_string_true in Hin. destruct Hspec as [_ ->].
      rewrite created_nothing. split; [reflexivity|].
      split; [congruence|]. intros r [].
    + apply falsy_string_false in Hin.
      destruct Hspec
        as (result & p & r0 & Hcall & _ & _ & Hheap & _ & Horig & Htr & _).
      split; [congruence|]. split.
      { intros _. exists p, r0. unfold created.
        now rewrite Hheap, drop_app_length. }
      intros r Hr. apply (created_record _ _ _ _ _ Hheap) in Hr. subst r.
      split; [exact Horig|]. split; [congruence|].
      intros Hblank. rewrite Htr. clear Htr.
      rewrite translateText_cases, Hblank in Hcall. cbv zeta in Hcall.
      destruct (generate_outcome E (ticks w) _) as [t|e] eqn:Hout;
        simpl in Hcall; injection Hcall as <-.
      * split; [now apply or_string_nonempty|].
        split; [intros e He; discriminate|].
        intros He. injection He as ->. reflexivity.
      * split; [discriminate|]. split; [reflexivity | discriminate].
  - intros st.
    destruct (ImageTranslator_handleTranslate_spec E st w)
      as (st' & w' & Hrun & Hspec).
    exists st', w'. split; [exact Hrun|].
    unfold ImageTranslator.no_image.
    destruct (ImageTranslator.image st) as [img|].
    2:{ destruct Hspec as [_ ->]. rewrite created_nothing.
        split; [reflexivity|]. split; [discriminate|]. intros r []. }
    destruct (falsy_string img) eqn:Himg.
    + destruct Hspec as [_ ->]. rewrite created_nothing.
      split; [reflexivity|]. split; [discriminate|]. intros r [].
    + apply falsy_string_false in Himg.
      destruct Hspec
        as (result & p & r0 & Hcall & _ & _ & Hheap & _ & Horig & Htr & _).
      split; [discriminate|]. split.
      { intros _. exists p, r0. unfold created.
        now rewrite Hheap, drop_app_length. }
      intros r Hr. apply (created_record _ _ _ _ _ Hheap) in Hr. subst r.
      exists img. cbv zeta. split; [reflexivity|].
      split; [exact Horig|]. split; [congruence|]. rewrite Htr. clear Htr.
      rewrite translateImage_cases in Hcall. cbv zeta in Hcall.
      destruct (generate_outcome E (ticks w) _) as [t|e] eqn:Hout;
        simpl in Hcall; injection Hcall as <-.
      * split; [now apply or_string_nonempty|].
        split; [intros e He; discriminate|].
        intros He. injection He as ->. reflexivity.
      * split; [discriminate|]. split; [reflexivity | discriminate].
Qed.

Lemma created_records_nonempty_witness :
  blank (str "Hello") = false /\
  generate_outcome env_offline 0
    (translateText_request (str "Hello") (LANG_label 0) (LANG_label 1))
  = GenerateRejected (Rejection (str "offline")) /\
  exists st' w',
    TextTranslator.handleTranslate env_offline (text_screen (str "Hello"))
      empty_world = (Return st', w') /\
    (exists p r, created empty_world w' = [obj_of_partial p; obj_of_record r])
    /\
    forall r, In (obj_of_record r) (created empty_world w') ->
      original r = str "Hello" /\
      translated r = str "Error: Could not translate text.".
Proof.
  split; [reflexivity|]. split; [reflexivity|].
  destruct (created_records_nonempty env_offline empty_world) as [Htext _].
  destruct (Htext (text_screen (str "Hello")))
    as (st' & w' & Hrun & _ & Hone & Hall).
  exists st', w'. split; [exact Hrun|].
  split; [apply Hone; discriminate|].
  intros r Hr. destruct (Hall r Hr) as (Horig & _ & Htr).
  split; [exact Horig|].
  destruct Htr as (_ & Hrej & _); [reflexivity|].
  apply (Hrej (Rejection (str "offline"))). reflexivity.
Defined.

(** ** Two scenarios of the specification *)

(** "Hello" from English to Korean, the model answering with the Korean
    greeting: the greeting is displayed, and a text record with that
    original and translation is handed to the store. *)
Example scenario_hello :
  let answer := [0xC548; 0xB155; 0xD558; 0xC138; 0xC694]%N in
  let E := env_online {| ok := true; json := None |} (Some answer) in
  let run :=
    TextTranslator.handleTranslate E (text_screen (str "Hello")) empty_world in
  let r :=
    completed
      {| p_type := type_text; p_original := str "Hello";
         p_translated := answer;
         p_sourceLang := LANG_label 0; p_targetLang := LANG_label 1 |}
      (str "00112233-4455-4677-8899-aabbccddeeff") 1700000000000 in
  (exists st', run.1 = Return st' /\ TextTranslator.output st' = answer) /\
  heap run.2 !! 1%nat = Some (obj_of_record r) /\
  last (log run.2)
  = Some (EvFetch (str "https://script.example/exec")
            (Some (save_request (obj_of_record r)))).
Proof.
  cbv zeta. split; [eexists; split; reflexivity|].
  split; vm_compute; reflexivity.
Qed.

(** Without an endpoint the history screen ends with no records and the
    loading flag cleared, having touched nothing. *)
Example scenario_history_unconfigured :
  HistoryView.fetchHistory env_offline history_initial empty_world
  = (Return history_initial, empty_world).
Proof. reflexivity. Qed.

(** ** The camera *)

Lemma stop_all_ended (stream : ImageTranslator.MediaStream) :
  ImageTranslator.is_active (ImageTranslator.stop_all stream) = false.
Proof.
  unfold ImageTranslator.is_active, ImageTranslator.stop_all.
  induction stream as [|t stream IH]; simpl; [reflexivity | exact IH].
Qed.

Lemma stop_all_once (stream : ImageTranslator.MediaStream) :
  map ImageTranslator.stop_calls (ImageTranslator.stop_all stream)
  = map S (map ImageTranslator.stop_calls stream).
Proof.
  unfold ImageTranslator.stop_all.
  induction stream as [|t stream IH]; simpl; [reflexivity | now rewrite IH].
Qed.

(** X19.  When the video element is mounted with a stream attached, the
    canvas is mounted and yields a context, [captureImage] calls [stop] once on each
    track of that stream, after which none of them is live; the other
    streams are not touched; the frame becomes the image and the camera is
    marked inactive. *)
Lemma captureImage_stops_attached_stream (st : ImageTranslator.State)
    (streams : list ImageTranslator.MediaStream)
    (s : nat) (stream : ImageTranslator.MediaStream) (dataUrl : jsstring) :
  ImageTranslator.videoRef st
    = Some {| ImageTranslator.srcObject := Some s |} ->
  ImageTranslator.canvasRef st = true ->
  streams !! s = Some stream ->
  exists st' streams',
    ImageTranslator.captureImage true dataUrl st streams = (st', streams') /\
    ImageTranslator.image st' = Some dataUrl /\
    ImageTranslator.isCameraActive st' = false /\
    streams' !! s = Some (ImageTranslator.stop_all stream) /\
    ImageTranslator.is_active (ImageTranslator.stop_all stream) = false /\
    map ImageTranslator.stop_calls (ImageTranslator.stop_all stream)
      = map S (map ImageTranslator.stop_calls stream) /\
    (forall i, i <> s -> streams' !! i = streams !! i).
Proof.
  intros Hvideo Hcanvas Hs. unfold ImageTranslator.captureImage.
  rewrite Hvideo, Hcanvas. simpl.
  eexists _, _. split; [reflexivity|]. simpl.
  split; [reflexivity|]. split; [reflexivity|].
  unfold ImageTranslator.stop_stream.
  split; [now rewrite list_lookup_alter_eq, Hs|].
  split; [apply stop_all_ended|]. split; [apply stop_all_once|].
  intros i Hi. apply list_lookup_alter_ne. congruence.
Qed.

(** The cleanup of the effect stops the stream attached to the video
    element, when the element is mounted and has one; otherwise it stops
    nothing. *)
Lemma cleanup_cases (st : ImageTranslator.State)
    (streams : list ImageTranslator.MediaStream) :
  ImageTranslator.cleanup st streams =
  match ImageTranslator.videoRef st with
  | Some {| ImageTranslator.srcObject := Some s |} =>
      ImageTranslator.stop_stream s streams
  | _ => streams
  end.
Proof.
  unfold ImageTranslator.cleanup.
  destruct (ImageTranslator.videoRef st) as [[[s|]]|]; reflexivity.
Qed.

(** ** The camera: what holds along every course of events *)

Section Camera.

Import ImageTranslator.

Lemma attached_commit (st : State) (s : nat) :
  attached (commit st) = Some s -> attached st = Some s.
Proof.
  unfold commit, attached.
  destruct (video_rendered st); [|discriminate].
  destruct (videoRef st) eqn:Hv; simpl; [now rewrite Hv | discriminate].
Qed.

Lemma attached_render (b : bool) (st : State) (s : nat) :
  attached (render b st) = Some s -> attached st = Some s.
Proof. destruct b; simpl; [apply attached_commit | tauto]. Qed.

Lemma attached_after_capture (dataUrl : jsstring) (st : State) :
  attached (commit (setIsCameraActive false (setImage (Some dataUrl) st)))
  = None.
Proof.
  unfold commit, video_rendered. simpl. now destruct (mode st).
Qed.

Lemma stop_all_fresh (stream : MediaStream) :
  Forall (eq fresh_track) stream ->
  Forall live_or_stopped_once (stop_all stream).
Proof.
  unfold stop_all. induction 1 as [|t stream <- _ IH]; simpl; constructor.
  - now right.
  - exact IH.
Qed.

Lemma fresh_live_or_stopped_once (stream : MediaStream) :
  Forall (eq fresh_track) stream -> Forall live_or_stopped_once stream.
Proof.
  intros H. eapply Forall_impl; [exact H|]. intros t <-. now left.
Qed.

(** Stopping a stream of live tracks keeps every track live or stopped
    once. *)
Lemma stop_attached (ss : list MediaStream) (s : nat) :
  Forall (Forall live_or_stopped_once) ss ->
  (exists stream, ss !! s = Some stream /\ Forall (eq fresh_track) stream) ->
  Forall (Forall live_or_stopped_once) (stop_stream s ss).
Proof.
  intros Hall (stream & Hlook & Hfresh).
  unfold stop_stream. apply Forall_alter; [exact Hall|].
  intros x Hx _. rewrite Hlook in Hx. injection Hx as <-.
  now apply stop_all_fresh.
Qed.

(** After a commit the video element is referenced only if it is
    rendered. *)
Lemma commit_shows_video (st : State) :
  videoRef (commit st) <> None -> video_rendered (commit st) = true.
Proof.
  unfold commit. destruct (video_rendered st) eqn:Hr.
  - intros _. now destruct (videoRef st).
  - simpl. congruence.
Qed.

Lemma cleanup_detached (st : State) (ss : list MediaStream) :
  attached st = None -> cleanup st ss = ss.
Proof.
  unfold attached. rewrite cleanup_cases.
  destruct (videoRef st) as [[[s|]]|]; simpl; congruence.
Qed.

(** When [mode] changes on a kept instance, the video element that is
    referenced after the commit has no stream: going to upload removes the
    element, going to camera creates it anew. *)
Lemma switched_no_stream (st : State) (m : Mode) :
  (videoRef st <> None -> video_rendered st = true) ->
  same_mode m (mode st) = false ->
  attached (commit (set_mode m st)) = None.
Proof.
  intros Href Hdiff. unfold commit, video_rendered, attached in *.
  destruct m, (mode st) eqn:Hmode; try discriminate; simpl.
  - reflexivity.
  - destruct (videoRef st) as [video|] eqn:Hv.
    + assert (false = true) by (apply Href; discriminate). discriminate.
    + now destruct (isCameraActive st).
Qed.

Lemma step_inv (p : Page) (ev : Event) : page_inv p -> page_inv (step p ev).
Proof.
  intros Hp. pose proof Hp as (Hall & Hatt & Href).
  assert (Hkeep : forall st' n,
            (forall s, attached st' = Some s ->
                       attached (component p) = Some s) ->
            page_inv {| component := commit st'; mounted := true;
                        streams := streams p; pending := n |}).
  { intros st' n Hle. split; [exact Hall|]. split; simpl.
    - intros s Hs. apply Hatt, Hle. now apply attached_commit.
    - intros Hv. split; [reflexivity|]. now apply commit_shows_video. }
  assert (Hgone : forall st' n b,
            videoRef st' = None ->
            page_inv {| component := st'; mounted := b;
                        streams := streams p; pending := n |}).
  { intros st' n b Hv. split; [exact Hall|]. split; simpl.
    - unfold attached. rewrite Hv. discriminate.
    - congruence. }
  assert (Hunmounted : mounted p = false -> videoRef (component p) = None).
  { intros Hm. destruct (videoRef (component p)) eqn:Hv; [|reflexivity].
    destruct Href as [Hm' _]; congruence. }
  destruct ev as [m|tracks| |context dataUrl| | |]; simpl.
  - (* Mount *)
    destruct (mounted p) eqn:Hm.
    + destruct (same_mode m (mode (component p))) eqn:Hsame; [exact Hp|].
      assert (Hnone : attached (commit (set_mode m (component p))) = None).
      { apply switched_no_stream; [|exact Hsame]. intros Hv. now apply Href. }
      rewrite (cleanup_detached _ _ Hnone).
      destruct m.
      * apply (Hkeep (set_mode mode_upload (component p))). tauto.
      * apply Hkeep. intros s Hs.
        change (attached (commit (set_mode mode_camera (component p)))
                = Some s) in Hs.
        congruence.
    + destruct m; apply Hkeep; discriminate.
  - (* GetUserMediaResolved *)
    destruct (pending p) as [|n]; [exact Hp|].
    assert (Hall' : Forall (Forall live_or_stopped_once)
                      (streams p ++ [replicate tracks fresh_track])).
    { apply Forall_app. split; [exact Hall|].
      constructor; [|constructor]. apply Forall_replicate. now left. }
    destruct (mounted p) eqn:Hm; simpl.
    + split; [exact Hall'|]. split; simpl.
      * intros s Hs. apply attached_commit in Hs.
        unfold startCamera_resolved, attached in Hs.
        destruct (videoRef (component p)) eqn:Hv; simpl in Hs;
          [|rewrite Hv in Hs; discriminate].
        injection Hs as <-. eexists. split.
        -- apply list_lookup_middle. reflexivity.
        -- apply Forall_replicate. reflexivity.
      * intros Hv. split; [reflexivity|]. now apply commit_shows_video.
    + unfold startCamera_resolved. rewrite (Hunmounted eq_refl).
      split; [exact Hall'|]. split; simpl.
      * unfold attached. rewrite (Hunmounted eq_refl). discriminate.
      * intros Hv. now rewrite (Hunmounted eq_refl) in Hv.
  - (* GetUserMediaRejected *)
    destruct (pending p) as [|n]; [exact Hp|].
    destruct (mounted p) eqn:Hm; simpl.
    + apply Hkeep. tauto.
    + apply Hgone. simpl. now apply Hunmounted.
  - (* Capture *)
    destruct (mounted p && shows (component p) CaptureButton); [|exact Hp].
    unfold captureImage.
    destruct (videoRef (component p)) as [video|] eqn:Hv;
      [|apply Hkeep; tauto].
    destruct (canvasRef (component p) && context); [|apply Hkeep; tauto].
    destruct (srcObject video) as [s|] eqn:Hsrc.
    + split; simpl; [|split].
      * apply stop_attached; [exact Hall|].
        apply Hatt. unfold attached. now rewrite Hv.
      * intros s' Hs'. now rewrite attached_after_capture in Hs'.
      * intros Hv'. split; [reflexivity|]. now apply commit_shows_video.
    + split; simpl; [exact Hall|split].
      * intros s' Hs'. now rewrite attached_after_capture in Hs'.
      * intros Hv'. split; [reflexivity|]. now apply commit_shows_video.
  - (* ClearPreview *)
    destruct (mounted p && shows (component p) ClearButton); [|exact Hp].
    unfold clear_preview.
    destruct (mode (setImage None (component p))); apply Hkeep; tauto.
  - (* StartCameraButton *)
    destruct (mounted p && shows (component p) StartButton); [|exact Hp].
    apply Hkeep. tauto.
  - (* Unmount *)
    destruct (mounted p); [|exact Hp]. apply Hgone. reflexivity.
Qed.

(** Every page that arises from a course of events satisfies [page_inv]. *)
Lemma run_inv (evs : list Event) : page_inv (run evs).
Proof.
  unfold run.
  assert (H : forall p, page_inv p -> page_inv (fold_left step evs p)).
  { induction evs as [|ev evs IH]; intros p Hp; simpl; [exact Hp|].
    apply IH, step_inv, Hp. }
  apply H. split; [constructor|]. split; simpl; [discriminate | congruence].
Qed.


End Camera.

(** The intended course: the stream arrives, a frame is captured, the screen
    is left.  The track is stopped once and nothing stays active. *)
Example camera_capture_then_leave :
  let p :=
    ImageTranslator.run
      [ImageTranslator.Mount ImageTranslator.mode_camera;
       ImageTranslator.GetUserMediaResolved 1;
       ImageTranslator.Capture true (str "data:image/jpeg;base64,/9j/4AAQ");
       ImageTranslator.Unmount] in
  ImageTranslator.active_streams p = [] /\
  ImageTranslator.streams p
  = [[{| ImageTranslator.live := false; ImageTranslator.stop_calls := 1 |}]].
Proof. split; reflexivity. Qed.

(** ** C8 *)

(** Claim C8 against the code: two courses of events after which a camera
    stream that was acquired is still active, although the cleanup has run.

    In the first the screen is left while [getUserMedia] is pending: the
    cleanup finds no stream on the video element, and when the stream
    arrives [videoRef.current] is null, so the stream is neither attached nor
    stopped.  In the second a frame is captured while [getUserMedia] is
    pending: the capture finds no stream to stop and unmounts the video
    element; the stream that arrives is dropped in the same way, and the
    cleanup on leaving the screen does not find it. *)
Theorem camera_stream_left_active :
  ImageTranslator.active_streams
    (ImageTranslator.run
       [ImageTranslator.Mount ImageTranslator.mode_camera;
        ImageTranslator.Unmount;
        ImageTranslator.GetUserMediaResolved 1])
  = [[ImageTranslator.fresh_track]]
  /\
  ImageTranslator.active_streams
    (ImageTranslator.run
       [ImageTranslator.Mount ImageTranslator.mode_camera;
        ImageTranslator.Capture true (str "data:,");
        ImageTranslator.GetUserMediaResolved 1;
        ImageTranslator.Unmount])
  = [[ImageTranslator.fresh_track]].
Proof. split; reflexivity. Qed.

(** * Further properties *)

(** ** The translation client *)

Lemma network_events_app (l1 l2 : list event) :
  network_events (l1 ++ l2) = network_events l1 ++ network_events l2.
Proof. apply List.filter_app. Qed.

(** X1.  One attempt, never a second.  [translateText] calls the endpoint
    exactly once when the text has a character that is not white space, with
    the request built from the text as typed (not trimmed), and not at all
    otherwise; [translateImage] calls it exactly once for every input.  This
    holds whether the call succeeds or fails. *)
Theorem translation_single_attempt (E : Env)
    (text base64Image sourceLang targetLang : jsstring) (w : World) :
  network_events
    (logged w (translateText E text sourceLang targetLang w).2)
  = (if blank text then []
     else [EvGenerateContent
             (translateText_request text sourceLang targetLang)])
  /\
  network_events
    (logged w (translateImage E base64Image sourceLang targetLang w).2)
  = [EvGenerateContent
       (translateImage_request base64Image sourceLang targetLang)].
Proof.
  rewrite translateText_cases, translateImage_cases. cbv zeta. split.
  - destruct (blank text).
    + unfold logged. simpl. now rewrite drop_all.
    + destruct (generate_outcome E (ticks w) _); simpl snd;
        rewrite <- ?app_assoc, logged_app; reflexivity.
  - destruct (generate_outcome E (ticks w) _); simpl snd;
      rewrite <- ?app_assoc, logged_app; reflexivity.
Qed.

(** X2.  A text the model returns is handed on unchanged as long as it is
    not empty; an answer whose text is the empty string is treated like an
    answer without text and replaced by the fixed failure string. *)
Theorem translation_returns_model_text (E : Env)
    (text base64Image sourceLang targetLang t : jsstring) (w : World) :
  let text_outcome :=
    generate_outcome E (ticks w)
      (translateText_request text sourceLang targetLang) in
  let image_outcome :=
    generate_outcome E (ticks w)
      (translateImage_request base64Image sourceLang targetLang) in
  (blank text = false -> text_outcome = GenerateResolved (Some t) ->
   (translateText E text sourceLang targetLang w).1
   = Return (if decide (t = []) then str "Translation failed." else t)) /\
  (image_outcome = GenerateResolved (Some t) ->
   (translateImage E base64Image sourceLang targetLang w).1
   = Return (if decide (t = []) then str "Analysis failed." else t)).
Proof.
  cbv zeta. rewrite translateText_cases, translateImage_cases. cbv zeta.
  split.
  - intros -> ->. simpl. now destruct t.
  - intros ->. simpl. now destruct t.
Qed.

Lemma translation_returns_model_text_witness :
  (translateText (env_online {| ok := true; json := None |} (Some (str "Hallo")))
     (str " Hello ") (str "English") (str "Deutsch") empty_world).1
  = Return (str "Hallo") /\
  (translateImage (env_online {| ok := true; json := None |} (Some []))
     (str "data:image/png;base64,iVBORw0KGgo=") (str "English") (str "Deutsch")
     empty_world).1
  = Return (str "Analysis failed.").
Proof.
  split.
  - apply (translation_returns_model_text
             (env_online {| ok := true; json := None |} (Some (str "Hallo")))
             (str " Hello ") [] (str "English") (str "Deutsch") (str "Hallo")
             empty_world); reflexivity.
  - apply (translation_returns_model_text
             (env_online {| ok := true; json := None |} (Some []))
             [] (str "data:image/png;base64,iVBORw0KGgo=")
             (str "English") (str "Deutsch") [] empty_world); reflexivity.
Defined.

(** ** The store client *)

(** The run of [saveRecord], event by event. *)
Lemma saveRecord_run (E : Env) (record : loc) (fields : object) (w : World) :
  heap w !! record = Some fields ->
  let newRecord :=
    <["timestamp" := VNum (clock E (S (ticks w)))]>
    (<["id" := VStr (uuid_v4 (random_bytes E (ticks w)))]> fields) in
  let request := Some (save_request newRecord) in
  exists n,
    saveRecord E record w =
    (Return (length (heap w)),
     {| heap := heap w ++ [newRecord];
        log := log w ++
          (if falsy_string (SHEET_URL E)
           then [EvConsoleWarn (str "GOOGLE_SHEET_URL is missing in .env")]
           else
             match fetch_outcome E (S (S (ticks w))) (SHEET_URL E) request with
             | FetchResolved _ => [EvFetch (SHEET_URL E) request]
             | FetchRejected e =>
                 [EvFetch (SHEET_URL E) request;
                  EvConsoleError (str "Failed to save to Google Sheet:") e]
             end);
        ticks := n |}).
Proof.
  intros Hrec newRecord request.
  unfold saveRecord, deref, crypto_randomUUID, Date_now, alloc, fetch.
  run_M. rewrite Hrec. simpl.
  destruct (falsy_string (SHEET_URL E)); simpl; [eexists; reflexivity|].
  rewrite list_lookup_middle by reflexivity. simpl.
  fold newRecord. fold request.
  destruct (fetch_outcome E _ _ _) as [response|e]; simpl;
    rewrite <- ?app_assoc; eexists; reflexivity.
Qed.

(** X3.  With an endpoint configured, [saveRecord] makes exactly one request:
    a POST of [{action: "save", data}] whose [data] is the very record it
    returns.  A resolved request logs nothing whatever the response is (its
    status is not looked at); a rejected one is logged once and not
    repeated. *)
Theorem saveRecord_posts_returned_record (E : Env) (record : loc)
    (fields : object) (w : World) :
  heap w !! record = Some fields ->
  SHEET_URL E <> [] ->
  exists newRecord w' data,
    saveRecord E record w = (Return newRecord, w') /\
    heap w' !! newRecord = Some data /\
    let request := Some (save_request data) in
    let outcome := fetch_outcome E (S (S (ticks w))) (SHEET_URL E) request in
    network_events (logged w w') = [EvFetch (SHEET_URL E) request] /\
    (forall response, outcome = FetchResolved response ->
       logged w w' = [EvFetch (SHEET_URL E) request]) /\
    (forall e, outcome = FetchRejected e ->
       logged w w'
       = [EvFetch (SHEET_URL E) request;
          EvConsoleError (str "Failed to save to Google Sheet:") e]).
Proof.
  intros Hrec Hurl. apply falsy_string_false in Hurl.
  destruct (saveRecord_run E record fields w Hrec) as (n & Hrun).
  cbv zeta in Hrun. rewrite Hurl in Hrun.
  eexists _, _, _. split; [exact Hrun|]. simpl heap.
  split; [apply list_lookup_middle; reflexivity|].
  cbv zeta. rewrite logged_app.
  destruct (fetch_outcome E _ _ _) as [response|e].
  - split; [reflexivity|]. split; [reflexivity | discriminate].
  - split; [reflexivity|]. split; [discriminate|].
    intros e' [= <-]. reflexivity.
Qed.

Lemma saveRecord_posts_returned_record_witness :
  heap world_hello !! 0%nat = Some (obj_of_partial hello) /\
  SHEET_URL env_store_down <> [] /\
  exists newRecord w' data,
    saveRecord env_store_down 0 world_hello = (Return newRecord, w') /\
    heap w' !! newRecord = Some data /\
    logged world_hello w'
    = [EvFetch (SHEET_URL env_store_down) (Some (save_request data));
       EvConsoleError (str "Failed to save to Google Sheet:")
         (TypeError (str "Failed to fetch"))].
Proof.
  split; [reflexivity|]. split; [discriminate|].
  destruct (saveRecord_posts_returned_record env_store_down 0
              (obj_of_partial hello) world_hello eq_refl)
    as (newRecord & w' & data & Hrun & Hnew & _ & _ & Hrej);
    [discriminate|].
  exists newRecord, w', data. split; [exact Hrun|]. split; [exact Hnew|].
  apply Hrej. reflexivity.
Defined.

(** X4.  The [id] and the [timestamp] of the returned record are always the
    ones [saveRecord] draws: an [id] or a [timestamp] the caller's object
    carries is overridden, because the spread comes first. *)
Theorem saveRecord_assigns_id_and_timestamp (E : Env) (record : loc)
    (fields : object) (w : World) :
  heap w !! record = Some fields ->
  exists newRecord w' fields',
    saveRecord E record w = (Return newRecord, w') /\
    heap w' !! newRecord = Some fields' /\
    fields' !! "id" = Some (VStr (uuid_v4 (random_bytes E (ticks w)))) /\
    fields' !! "timestamp" = Some (VNum (clock E (S (ticks w)))).
Proof.
  intros Hrec.
  destruct (saveRecord_run E record fields w Hrec) as (n & Hrun).
  eexists _, _, _. split; [exact Hrun|]. simpl heap.
  split; [apply list_lookup_middle; reflexivity|]. split.
  - rewrite lookup_insert_ne by done. apply lookup_insert_eq.
  - apply lookup_insert_eq.
Qed.

Lemma saveRecord_assigns_id_and_timestamp_witness :
  let w := {| heap := [hello_with_id]; log := []; ticks := 0 |} in
  heap w !! 0%nat = Some hello_with_id /\
  hello_with_id !! "id" = Some (VStr (str "mine")) /\
  exists newRecord w' fields',
    saveRecord env_offline 0 w = (Return newRecord, w') /\
    heap w' !! newRecord = Some fields' /\
    fields' !! "id"
    = Some (VStr (str "00112233-4455-4677-8899-aabbccddeeff")) /\
    fields' !! "timestamp" = Some (VNum 1700000000000).
Proof.
  cbv zeta. split; [reflexivity|]. split; [reflexivity|].
  apply (saveRecord_assigns_id_and_timestamp env_offline 0 hello_with_id
           {| heap := [hello_with_id]; log := []; ticks := 0 |}).
  reflexivity.
Defined.

(** The run of [getRecords], event by event. *)
Lemma getRecords_run (E : Env) (w : World) :
  getRecords E w =
  if falsy_string (SHEET_URL E) then (Return (VArr []), w) else
  let fetched :=
    {| heap := heap w; log := log w ++ [EvFetch (SHEET_URL E) None];
       ticks := S (ticks w) |} in
  let failed e :=
    (Return (VArr []),
     {| heap := heap w;
        log := (log w ++ [EvFetch (SHEET_URL E) None])
               ++ [EvConsoleError (str "Failed to fetch records:") e];
        ticks := S (S (ticks w)) |}) in
  match fetch_outcome E (ticks w) (SHEET_URL E) None with
  | FetchRejected e => failed e
  | FetchResolved r =>
      if negb (ok r)
      then failed (Error (str "Network response was not ok"))
      else
        match json r with
        | None => failed (SyntaxError (str "Unexpected token"))
        | Some VUndefined | Some VNull =>
            failed (TypeError (str "Cannot read properties of null"))
        | Some (VObj props) =>
            (Return (or_value (default VUndefined (props !! "data")) (VArr [])),
             fetched)
        | Some _ => (Return (VArr []), fetched)
        end
  end.
Proof.
  unfold getRecords.
  destruct (falsy_string (SHEET_URL E)); [reflexivity|].
  unfold fetch, response_json, get_property. run_M.
  destruct (fetch_outcome E (ticks w) (SHEET_URL E) None) as [r|e]; simpl;
    [|reflexivity].
  destruct (ok r); simpl; [|reflexivity].
  destruct (json r) as [[| | | | | |props]|]; reflexivity.
Qed.

(** X5.  What [getRecords] makes of an [ok] response.  When the body is an
    object, the result is its [data] if that is truthy, whatever it is (it is
    not checked to be an array), and the empty array if [data] is missing or
    falsy.  When the body is JSON but not an object, the result is the empty
    array. *)
Theorem getRecords_returns_truthy_data (E : Env) (w : World) (r : Response)
    (body : value) :
  SHEET_URL E <> [] ->
  fetch_outcome E (ticks w) (SHEET_URL E) None = FetchResolved r ->
  ok r = true ->
  json r = Some body ->
  (getRecords E w).1
  = Return match body with
           | VObj props =>
               match props !! "data" with
               | Some data => if truthy data then data else VArr []
               | None => VArr []
               end
           | _ => VArr []
           end.
Proof.
  intros Hurl Hout Hok Hbody. apply falsy_string_false in Hurl.
  rewrite getRecords_run, Hurl. cbv zeta. rewrite Hout, Hok, Hbody. simpl.
  destruct body as [| | | | | |props]; try reflexivity. simpl.
  destruct (props !! "data") as [data|]; reflexivity.
Qed.

Lemma getRecords_returns_truthy_data_witness :
  let stored :=
    {| ok := true; json := Some (VObj {["data" := VStr (str "none yet")]}) |} in
  SHEET_URL (env_online stored None) <> [] /\
  (getRecords (env_online stored None) empty_world).1
  = Return (VStr (str "none yet")).
Proof.
  cbv zeta. split; [discriminate|].
  rewrite (getRecords_returns_truthy_data
             (env_online
                {| ok := true;
                   json := Some (VObj {["data" := VStr (str "none yet")]}) |}
                None)
             empty_world
             {| ok := true;
                json := Some (VObj {["data" := VStr (str "none yet")]}) |}
             (VObj {["data" := VStr (str "none yet")]}));
    try reflexivity.
  discriminate.
Defined.

(** X6.  [getRecords] allocates nothing and makes at most one request: none
    without an endpoint, else a single GET.  It logs an error exactly when
    it fell back on a failure (request rejected, response not [ok], body not
    JSON, body [null]); an [ok] JSON body that merely lacks [data] is read
    as no records without a log entry. *)
Theorem getRecords_single_get (E : Env) (w : World) :
  let w' := (getRecords E w).2 in
  let outcome := fetch_outcome E (ticks w) (SHEET_URL E) None in
  heap w' = heap w /\
  network_events (logged w w')
  = (if falsy_string (SHEET_URL E) then [] else [EvFetch (SHEET_URL E) None])
  /\
  (SHEET_URL E <> [] ->
   (forall r body,
      outcome = FetchResolved r -> ok r = true -> json r = Some body ->
      body <> VNull -> body <> VUndefined ->
      logged w w' = [EvFetch (SHEET_URL E) None]) /\
   (forall cause,
      outcome = FetchRejected cause \/
      (exists response,
         outcome = FetchResolved response /\
         (ok response = false \/ json response = None \/
          json response = Some VNull)) ->
      exists e,
        logged w w'
        = [EvFetch (SHEET_URL E) None;
           EvConsoleError (str "Failed to fetch records:") e])).
Proof.
  cbv zeta. rewrite getRecords_run.
  destruct (falsy_string (SHEET_URL E)) eqn:Hurl.
  - split; [reflexivity|]. split.
    + unfold logged. simpl. now rewrite drop_all.
    + intros H. apply falsy_string_false in H. congruence.
  - cbv zeta. split; [|split].
    + destruct (fetch_outcome E _ _ _) as [r|e]; [|reflexivity].
      destruct (ok r); [|reflexivity].
      destruct (json r) as [[| | | | | |props]|]; reflexivity.
    + destruct (fetch_outcome E _ _ _) as [r|e];
        [destruct (ok r); [destruct (json r) as [[| | | | | |props]|]|]|];
        simpl snd; rewrite <- ?app_assoc, logged_app; reflexivity.
    + intros _. split.
      * intros r body -> -> -> Hnull Hundef. simpl.
        destruct body as [| | | | | |props]; try congruence;
          simpl snd; now rewrite logged_app.
      * intros cause [->|(response & -> & Hfail)].
        -- eexists. simpl snd. rewrite <- app_assoc, logged_app. reflexivity.
        -- destruct Hfail as [->|[->| ->]]; simpl.
           ++ eexists. simpl snd. rewrite <- app_assoc, logged_app.
              reflexivity.
           ++ destruct (ok response); eexists; simpl snd;
                rewrite <- app_assoc, logged_app; reflexivity.
           ++ destruct (ok response); eexists; simpl snd;
                rewrite <- app_assoc, logged_app; reflexivity.
Qed.

Lemma getRecords_single_get_witness :
  SHEET_URL (env_online {| ok := true; json := Some (VObj ∅) |} None) <> [] /\
  logged empty_world
    (getRecords (env_online {| ok := true; json := Some (VObj ∅) |} None)
       empty_world).2
  = [EvFetch (str "https://script.example/exec") None].
Proof.
  split; [discriminate|].
  destruct (getRecords_single_get
              (env_online {| ok := true; json := Some (VObj ∅) |} None)
              empty_world) as (_ & _ & Hlog).
  destruct Hlog as [Hquiet _]; [discriminate|].
  apply (Hquiet {| ok := true; json := Some (VObj ∅) |} (VObj ∅));
    try reflexivity; discriminate.
Defined.

(** ** The history screen *)

(** X7.  Whenever [getRecords] comes back with the empty array (no endpoint,
    a failed request, an empty store), the history screen ends with no
    records, the loading flag cleared and the selection untouched: it shows
    the empty-state message and no spinner. *)
Theorem fetchHistory_without_records (E : Env) (st : HistoryView.State)
    (w : World) :
  (getRecords E w).1 = Return (VArr []) ->
  exists st',
    (HistoryView.fetchHistory E st w).1 = Return st' /\
    HistoryView.records st' = [] /\
    HistoryView.loading st' = false /\
    HistoryView.selected st' = HistoryView.selected st /\
    HistoryView.shows_empty_state st' = true /\
    HistoryView.shows_spinner st' = false.
Proof.
  intros Hget. unfold HistoryView.fetchHistory. run_M.
  destruct (getRecords E w) as [[v|e] w']; simpl in Hget; [|discriminate].
  injection Hget as ->. simpl.
  eexists. split; [reflexivity|]. repeat split.
Qed.

Lemma fetchHistory_without_records_witness :
  (getRecords env_store_down empty_world).1 = Return (VArr []) /\
  exists st',
    (HistoryView.fetchHistory env_store_down history_initial empty_world).1
    = Return st' /\
    HistoryView.records st' = [] /\
    HistoryView.shows_empty_state st' = true.
Proof.
  split; [reflexivity|].
  destruct (fetchHistory_without_records env_store_down history_initial
              empty_world eq_refl)
    as (st' & Hrun & Hrecords & _ & _ & Hempty & _).
  exists st'. split; [exact Hrun|]. split; [exact Hrecords | exact Hempty].
Defined.

Lemma Array_sort_sorted (l : list TranslationRecord) :
  StronglySorted newer_or_equal l ->
  Array_sort (fun a b => timestamp b - timestamp a) l = l.
Proof.
  induction 1 as [|x l Hl IH Hx]; simpl; [reflexivity|].
  rewrite IH. destruct Hx as [|y l Hy _]; simpl; [reflexivity|].
  unfold newer_or_equal in Hy.
  destruct (0 <? timestamp y - timestamp x) eqn:Hc; [|reflexivity].
  apply Z.ltb_lt in Hc. lia.
Qed.

(** X8.  A list the store returns newest first is stored exactly as fetched;
    hence sorting what the screen has stored changes nothing. *)
Theorem fetchHistory_keeps_sorted_list (E : Env) (st : HistoryView.State)
    (w w' : World) (data : list TranslationRecord) :
  getRecords E w = (Return (VArr (map record_value data)), w') ->
  StronglySorted newer_or_equal data ->
  exists st',
    HistoryView.fetchHistory E st w = (Return st', w') /\
    HistoryView.records st' = data /\
    Array_sort (fun a b => timestamp b - timestamp a)
      (HistoryView.records st') = HistoryView.records st'.
Proof.
  intros Hget Hsorted. unfold HistoryView.fetchHistory. run_M.
  rewrite Hget, as_records_values. simpl.
  eexists. split; [reflexivity|]. simpl.
  rewrite !Array_sort_sorted by exact Hsorted. split; reflexivity.
Qed.

Lemma fetchHistory_keeps_sorted_list_witness :
  let E :=
    env_online
      {| ok := true;
         json := Some (VObj {["data" :=
                   VArr (map record_value sorted_history)]}) |} None in
  StronglySorted newer_or_equal sorted_history /\
  exists st',
    (HistoryView.fetchHistory E history_initial empty_world).1 = Return st' /\
    HistoryView.records st' = sorted_history.
Proof.
  cbv zeta.
  assert (Hsorted : StronglySorted newer_or_equal sorted_history).
  { repeat constructor; unfold newer_or_equal; simpl; lia. }
  split; [exact Hsorted|].
  set (E := env_online
              {| ok := true;
                 json := Some (VObj {["data" :=
                           VArr (map record_value sorted_history)]}) |}
              None).
  assert (Hget : getRecords E empty_world
                 = (Return (VArr (map record_value sorted_history)),
                    (getRecords E empty_world).2)) by reflexivity.
  destruct (fetchHistory_keeps_sorted_list E history_initial empty_world
              (getRecords E empty_world).2 sorted_history Hget Hsorted)
    as (st' & Hrun & Hrecords & _).
  exists st'. split; [now rewrite Hrun | exact Hrecords].
Defined.

(** ** The screens and the store together *)

(** Both translation calls leave the heap alone and only add to the log. *)
Lemma translateText_run (E : Env) (text sourceLang targetLang : jsstring)
    (w : World) :
  exists result evs n,
    translateText E text sourceLang targetLang w
    = (Return result, {| heap := heap w; log := log w ++ evs; ticks := n |}).
Proof.
  rewrite translateText_cases. destruct (blank text).
  - exists [], [], (ticks w). rewrite app_nil_r. now destruct w.
  - cbv zeta. destruct (generate_outcome E (ticks w) _);
      rewrite <- ?app_assoc; eexists _, _, _; reflexivity.
Qed.

Lemma translateImage_run (E : Env) (base64Image sourceLang targetLang : jsstring)
    (w : World) :
  exists result evs n,
    translateImage E base64Image sourceLang targetLang w
    = (Return result, {| heap := heap w; log := log w ++ evs; ticks := n |})
    /\ sent_images evs
       = [(str "image/jpeg", replace_at_start DATA_URI_RE [] base64Image)].
Proof.
  rewrite translateImage_cases. cbv zeta.
  destruct (generate_outcome E (ticks w) _);
    rewrite <- ?app_assoc; eexists _, _, _; split; reflexivity.
Qed.

(** The object literal followed by [saveRecord], event by event. *)
Lemma alloc_saveRecord_run (E : Env) (p : PartialRecord) (w : World) :
  let r := completed p (uuid_v4 (random_bytes E (ticks w)))
             (clock E (S (ticks w))) in
  let request := Some (save_request (obj_of_record r)) in
  exists n,
    (alloc (obj_of_partial p) ≫= saveRecord E) w =
    (Return (S (length (heap w))),
     {| heap := heap w ++ [obj_of_partial p; obj_of_record r];
        log := log w ++
          (if falsy_string (SHEET_URL E)
           then [EvConsoleWarn (str "GOOGLE_SHEET_URL is missing in .env")]
           else
             match fetch_outcome E (S (S (ticks w))) (SHEET_URL E) request with
             | FetchResolved _ => [EvFetch (SHEET_URL E) request]
             | FetchRejected e =>
                 [EvFetch (SHEET_URL E) request;
                  EvConsoleError (str "Failed to save to Google Sheet:") e]
             end);
        ticks := n |}).
Proof.
  cbv zeta. unfold mbind, M_bind, alloc at 1.
  set (w1 := {| heap := heap w ++ [obj_of_partial p]; log := log w;
                ticks := ticks w |}).
  destruct (saveRecord_run E (length (heap w)) (obj_of_partial p) w1)
    as (n & Hrun).
  { simpl. apply list_lookup_middle. reflexivity. }
  cbv zeta in Hrun. rewrite Hrun. simpl.
  rewrite completed_object, <- app_assoc, length_app. simpl.
  rewrite Nat.add_1_r. eexists. reflexivity.
Qed.

Lemma network_events_save (E : Env) (request : option RequestInit) (t : nat) :
  network_events
    (if falsy_string (SHEET_URL E)
     then [EvConsoleWarn (str "GOOGLE_SHEET_URL is missing in .env")]
     else
       match fetch_outcome E t (SHEET_URL E) request with
       | FetchResolved _ => [EvFetch (SHEET_URL E) request]
       | FetchRejected e =>
           [EvFetch (SHEET_URL E) request;
            EvConsoleError (str "Failed to save to Google Sheet:") e]
       end)
  = if falsy_string (SHEET_URL E) then []
    else [EvFetch (SHEET_URL E) request].
Proof.
  destruct (falsy_string (SHEET_URL E)); [reflexivity|].
  destruct (fetch_outcome E t (SHEET_URL E) request); reflexivity.
Qed.

(** X9.  Submitting a text translates first and saves second.  The screen
    ends showing exactly what [translateText] returned, with the loading
    flag cleared, whatever becomes of the save; the record saved carries
    that same result; and after the translation's request the only network
    call is the POST of that record, made only when an endpoint is
    configured. *)
Theorem TextTranslator_translates_then_saves (E : Env)
    (st : TextTranslator.State) (w : World) :
  TextTranslator.input st <> [] ->
  exists result w1 w' r,
    translateText E (TextTranslator.input st) (TextTranslator.sourceLang st)
      (TextTranslator.targetLang st) w = (Return result, w1) /\
    TextTranslator.handleTranslate E st w
    = (Return
         (TextTranslator.setLoading false
            (TextTranslator.setOutput result
               (TextTranslator.setLoading true st))), w') /\
    heap w' !! S (length (heap w)) = Some (obj_of_record r) /\
    original r = TextTranslator.input st /\
    translated r = result /\
    network_events (logged w w')
    = network_events (logged w w1)
      ++ (if falsy_string (SHEET_URL E) then []
          else [EvFetch (SHEET_URL E)
                  (Some (save_request (obj_of_record r)))]).
Proof.
  intros Hin. apply falsy_string_false in Hin.
  unfold TextTranslator.handleTranslate. rewrite Hin. simpl.
  destruct (translateText_run E (TextTranslator.input st)
              (TextTranslator.sourceLang st) (TextTranslator.targetLang st) w)
    as (result & evs & n & Hcall).
  unfold mbind at 1, M_bind at 1. rewrite Hcall.
  match goal with
  | |- context [alloc (obj_of_partial ?p)] =>
      destruct (alloc_saveRecord_run E p
                  {| heap := heap w; log := log w ++ evs; ticks := n |})
        as (n' & Hsave)
  end.
  cbv zeta in Hsave. unfold mbind, M_bind in *.
  destruct (alloc _ _) as [[record|e] w2]; [|discriminate].
  rewrite Hsave. run_M.
  eexists result, _, _, _. split; [reflexivity|]. split; [reflexivity|].
  simpl heap. split.
  { rewrite lookup_app_r by lia. now rewrite Nat.sub_succ_l, Nat.sub_diag. }
  split; [reflexivity|]. split; [reflexivity|].
  rewrite <- app_assoc, !logged_app, network_events_app, network_events_save.
  reflexivity.
Qed.

Lemma TextTranslator_translates_then_saves_witness :
  let E := env_online {| ok := false; json := None |} (Some (str "Hallo")) in
  TextTranslator.input (text_screen (str "Hello")) <> [] /\
  exists st' w',
    TextTranslator.handleTranslate E (text_screen (str "Hello")) empty_world
    = (Return st', w') /\
    TextTranslator.output st' = str "Hallo" /\
    TextTranslator.loading st' = false /\
    length (network_events (logged empty_world w')) = 2%nat.
Proof.
  cbv zeta. split; [discriminate|].
  destruct (TextTranslator_translates_then_saves
              (env_online {| ok := false; json := None |} (Some (str "Hallo")))
              (text_screen (str "Hello")) empty_world)
    as (result & w1 & w' & r & Hcall & Hrun & _ & _ & _ & Hnet);
    [discriminate|].
  vm_compute in Hcall. injection Hcall as <- <-.
  eexists _, w'. split; [exact Hrun|]. split; [reflexivity|].
  split; [reflexivity|]. rewrite Hnet. reflexivity.
Defined.

(** X10.  The image screen saves the image as it holds it, data-URI prefix
    included, while the endpoint is sent the stripped data; the saved
    record's [type] is ["image"] in upload mode and ["camera"] in camera
    mode, and it carries the result that is displayed. *)
Theorem ImageTranslator_saves_whole_image (E : Env)
    (st : ImageTranslator.State) (img : jsstring) (w : World) :
  ImageTranslator.image st = Some img -> img <> [] ->
  exists st' w' r,
    ImageTranslator.handleTranslate E st w = (Return st', w') /\
    heap w' !! S (length (heap w)) = Some (obj_of_record r) /\
    original r = img /\
    translated r = ImageTranslator.output st' /\
    type r = match ImageTranslator.mode st with
             | ImageTranslator.mode_upload => type_image
             | ImageTranslator.mode_camera => type_camera
             end /\
    ImageTranslator.loading st' = false /\
    sent_images (logged w w')
    = [(str "image/jpeg", replace_at_start DATA_URI_RE [] img)].
Proof.
  intros Himg Hne. apply falsy_string_false in Hne.
  unfold ImageTranslator.handleTranslate. rewrite Himg, Hne. simpl.
  destruct (translateImage_run E img (ImageTranslator.sourceLang st)
              (ImageTranslator.targetLang st) w)
    as (result & evs & n & Hcall & Hsent).
  unfold mbind at 1, M_bind at 1. rewrite Hcall.
  match goal with
  | |- context [alloc (obj_of_partial ?p)] =>
      destruct (alloc_saveRecord_run E p
                  {| heap := heap w; log := log w ++ evs; ticks := n |})
        as (n' & Hsave)
  end.
  cbv zeta in Hsave. unfold mbind, M_bind in *.
  destruct (alloc _ _) as [[record|e] w2]; [|discriminate].
  rewrite Hsave. run_M.
  eexists _, _, _. split; [reflexivity|]. simpl heap. split.
  { rewrite lookup_app_r by lia. now rewrite Nat.sub_succ_l, Nat.sub_diag. }
  split; [reflexivity|]. split; [reflexivity|]. split; [reflexivity|].
  split; [reflexivity|].
  rewrite <- app_assoc, logged_app, sent_images_app, Hsent.
  destruct (falsy_string (SHEET_URL E)); [reflexivity|].
  destruct (fetch_outcome E _ _ _); reflexivity.
Qed.

Lemma ImageTranslator_saves_whole_image_witness :
  let img := str "data:image/png;base64,iVBORw0KGgo=" in
  ImageTranslator.image (upload_screen img) = Some img /\ img <> [] /\
  exists st' w' r,
    ImageTranslator.handleTranslate env_offline (upload_screen img)
      empty_world = (Return st', w') /\
    heap w' !! 1%nat = Some (obj_of_record r) /\
    original r = img /\ type r = type_image /\
    sent_images (logged empty_world w')
    = [(str "image/jpeg", str "iVBORw0KGgo=")].
Proof.
  cbv zeta. split; [reflexivity|]. split; [discriminate|].
  destruct (ImageTranslator_saves_whole_image env_offline
              (upload_screen (str "data:image/png;base64,iVBORw0KGgo="))
              (str "data:image/png;base64,iVBORw0KGgo=") empty_world eq_refl)
    as (st' & w' & r & Hrun & Hheap & Horig & _ & Htype & _ & Hsent);
    [discriminate|].
  exists st', w', r. split; [exact Hrun|]. split; [exact Hheap|].
  split; [exact Horig|]. split; [exact Htype | exact Hsent].
Defined.

(** X11.  Uploading.  Choosing no file changes nothing and starts no read.
    Choosing a file clears the output at once; when the read ends with a
    non-empty data URL the translate button appears and pressing it saves a
    record of type ["image"] with that data URL; when the read fails
    ([result] is [null]) there is no image, no button, and the handler does
    nothing. *)
Theorem upload_then_translate (E : Env) (st : ImageTranslator.State)
    (dataUrl : jsstring) (w : World) :
  ImageTranslator.mode st = ImageTranslator.mode_upload ->
  ImageTranslator.loading st = false ->
  dataUrl <> [] ->
  let chosen := (ImageTranslator.handleFileUpload (Some tt) st).1 in
  let loaded := ImageTranslator.onloadend (Some dataUrl) chosen in
  let failed := ImageTranslator.onloadend None chosen in
  ImageTranslator.handleFileUpload (@None unit) st = (st, false) /\
  ImageTranslator.output chosen = [] /\
  ImageTranslator.shows_translate_button loaded = true /\
  (exists st' w' r,
     ImageTranslator.handleTranslate E loaded w = (Return st', w') /\
     heap w' !! S (length (heap w)) = Some (obj_of_record r) /\
     type r = type_image /\ original r = dataUrl) /\
  ImageTranslator.shows_translate_button failed = false /\
  ImageTranslator.handleTranslate E failed w = (Return failed, w).
Proof.
  intros Hmode Hloading Hne. cbv zeta.
  split; [reflexivity|]. split; [reflexivity|]. split.
  { unfold ImageTranslator.shows_translate_button. simpl.
    rewrite Hloading. apply falsy_string_false in Hne. now rewrite Hne. }
  split; [|split; reflexivity].
  destruct (ImageTranslator_handleTranslate_spec E
              (ImageTranslator.onloadend (Some dataUrl)
                 (ImageTranslator.handleFileUpload (Some tt) st).1) w)
    as (st' & w' & Hrun & Hspec).
  simpl in Hspec. apply falsy_string_false in Hne. rewrite Hne in Hspec.
  destruct Hspec as (result & p & r & _ & _ & _ & Hheap & Htype & Horig & _).
  exists st', w', r. split; [exact Hrun|]. split.
  - rewrite Hheap, lookup_app_r by lia.
    replace (S (length (heap w)) - length (heap w))%nat with 1%nat by lia.
    reflexivity.
  - rewrite Hmode in Htype. split; [exact Htype | exact Horig].
Qed.

Lemma upload_then_translate_witness :
  let st := ImageTranslator.initial ImageTranslator.mode_upload in
  let img := str "data:image/png;base64,iVBORw0KGgo=" in
  ImageTranslator.mode st = ImageTranslator.mode_upload /\
  ImageTranslator.loading st = false /\ img <> [] /\
  exists st' w' r,
    ImageTranslator.handleTranslate env_offline
      (ImageTranslator.onloadend (Some img)
         (ImageTranslator.handleFileUpload (Some tt) st).1) empty_world
    = (Return st', w') /\
    heap w' !! 1%nat = Some (obj_of_record r) /\
    type r = type_image /\ original r = img.
Proof.
  cbv zeta. split; [reflexivity|]. split; [reflexivity|].
  split; [discriminate|].
  destruct (upload_then_translate env_offline
              (ImageTranslator.initial ImageTranslator.mode_upload)
              (str "data:image/png;base64,iVBORw0KGgo=") empty_world
              eq_refl eq_refl) as (_ & _ & _ & Hsave & _);
    [discriminate|].
  exact Hsave.
Defined.

(** ** The camera, continued *)

Section CameraReleases.

Import ImageTranslator.






Lemma no_active_streams (ss : list MediaStream) :
  Forall (fun stream => is_active stream = false) ss ->
  filter (fun stream => is_active stream = true) ss = [].
Proof.
  induction 1 as [|stream ss Hs _ IH]; [reflexivity|].
  rewrite filter_cons_False by congruence. exact IH.
Qed.

(** Stopping the stream on the video element leaves nothing active when it
    was the only stream that could be. *)
Lemma stop_only_active (st : State) (ss : list MediaStream) :
  (forall s stream,
     ss !! s = Some stream -> is_active stream = true ->
     attached st = Some s) ->
  Forall (fun stream => is_active stream = false)
    (match attached st with
     | Some s => stop_stream s ss
     | None => ss
     end).
Proof.
  intros Honly. apply Forall_lookup. intros i stream Hi.
  destruct (is_active stream) eqn:Hact; [|reflexivity].
  destruct (attached st) as [s|] eqn:Hatt.
  - unfold stop_stream in Hi. destruct (decide (s = i)) as [->|Hne].
    + rewrite list_lookup_alter_eq in Hi.
      destruct (ss !! i) as [x|]; [|discriminate].
      injection Hi as <-. now rewrite stop_all_ended in Hact.
    + rewrite list_lookup_alter_ne in Hi by exact Hne.
      specialize (Honly i stream Hi Hact). congruence.
  - specialize (Honly i stream Hi Hact). discriminate.
Qed.

(** X14.  Only capturing releases the camera.  When the only stream that
    is still active is the one on the video element, capturing a frame
    leaves no stream active.  Leaving the screen, or going to the other
    image tab, stops no track at all: by the time the cleanup of the effect
    runs, the video element it looks for is no longer referenced (or is a new
    one without a stream), so a stream that is live stays live. *)
Theorem only_capture_releases_camera (p : Page) :
  page_inv p ->
  mounted p = true ->
  canvasRef (component p) = true ->
  (forall s stream,
     streams p !! s = Some stream -> is_active stream = true ->
     attached (component p) = Some s) ->
  (forall dataUrl,
     shows (component p) CaptureButton = true ->
     active_streams (step p (Capture true dataUrl)) = []) /\
  streams (step p Unmount) = streams p /\
  (forall m, streams (step p (Mount m)) = streams p).
Proof.
  intros (_ & _ & Href) Hmounted Hcanvas Honly.
  pose proof (stop_only_active _ _ Honly) as Hstopped.
  split; [|split].
  - intros dataUrl Hshown. unfold active_streams. simpl.
    rewrite Hmounted, Hshown. simpl.
    unfold captureImage. rewrite Hcanvas. simpl.
    unfold attached in Hstopped.
    destruct (videoRef (component p)) as [[[s|]]|]; simpl;
      apply no_active_streams; exact Hstopped.
  - simpl. rewrite Hmounted. reflexivity.
  - intros m. simpl. rewrite Hmounted.
    destruct (same_mode m (mode (component p))) eqn:Hsame; [reflexivity|].
    assert (Hnone : attached (commit (set_mode m (component p))) = None).
    { apply switched_no_stream; [|exact Hsame]. intros Hv. now apply Href. }
    destruct m; simpl; now apply cleanup_detached.
Qed.

Lemma only_capture_releases_camera_witness :
  let p := run [Mount mode_camera; GetUserMediaResolved 2] in
  mounted p = true /\ canvasRef (component p) = true /\
  active_streams p = [[fresh_track; fresh_track]] /\
  active_streams (step p (Capture true (str "data:image/jpeg;base64,/9j/")))
  = [] /\
  active_streams (step p Unmount) = [[fresh_track; fresh_track]] /\
  active_streams (step p (Mount mode_upload)) = [[fresh_track; fresh_track]].
Proof.
  cbv zeta. split; [reflexivity|]. split; [reflexivity|].
  split; [reflexivity|].
  destruct (only_capture_releases_camera
              (run [Mount mode_camera; GetUserMediaResolved 2]))
    as (Hcapture & Hunmount & Hswitch);
    [apply run_inv | reflexivity | reflexivity | |].
  - intros [|s] stream Hs Hact; [reflexivity|].
    destruct s; discriminate.
  - split; [apply Hcapture; reflexivity|]. unfold active_streams.
    rewrite Hunmount, (Hswitch mode_upload). split; reflexivity.
Defined.

(** X15.  The camera used as intended.  When the stream arrives while the
    video is shown and a frame is then captured, every track of the stream
    has been stopped once and none is live, the frame is the image, the
    translate button is offered, and translating saves a record of type
    ["camera"] whose [original] is the frame. *)
Theorem camera_capture_then_translate (E : Env) (w : World) (tracks : nat)
    (dataUrl : jsstring) :
  dataUrl <> [] ->
  let p := run [Mount mode_camera; GetUserMediaResolved tracks;
                Capture true dataUrl] in
  streams p = [replicate tracks (stop fresh_track)] /\
  active_streams p = [] /\
  image (component p) = Some dataUrl /\
  shows_translate_button (component p) = true /\
  exists st' w' r,
    handleTranslate E (component p) w = (Return st', w') /\
    heap w' !! S (length (heap w)) = Some (obj_of_record r) /\
    type r = type_camera /\ original r = dataUrl.
Proof.
  intros Hne. cbv zeta.
  assert (Hstreams :
            streams (run [Mount mode_camera; GetUserMediaResolved tracks;
                          Capture true dataUrl])
            = [replicate tracks (stop fresh_track)]).
  { unfold run. simpl. unfold stop_all.
    change (map stop (replicate tracks fresh_track))
      with (stop <$> replicate tracks fresh_track).
    now rewrite fmap_replicate. }
  split; [exact Hstreams|]. split.
  { unfold active_streams. rewrite Hstreams. apply no_active_streams.
    constructor; [|constructor].
    clear Hstreams. unfold is_active.
    induction tracks as [|n IH]; [reflexivity | exact IH]. }
  split; [reflexivity|]. apply falsy_string_false in Hne as Hne'. split.
  { unfold shows_translate_button. simpl. now rewrite Hne'. }
  destruct (ImageTranslator_handleTranslate_spec E
              (component (run [Mount mode_camera; GetUserMediaResolved tracks;
                               Capture true dataUrl])) w)
    as (st' & w' & Hrun & Hspec).
  simpl in Hspec. rewrite Hne' in Hspec.
  destruct Hspec as (result & p0 & r & _ & _ & _ & Hheap & Htype & Horig & _).
  exists st', w', r. split; [exact Hrun|]. split.
  - rewrite Hheap, lookup_app_r by lia.
    replace (S (length (heap w)) - length (heap w))%nat with 1%nat by lia.
    reflexivity.
  - split; [exact Htype | exact Horig].
Qed.

Lemma camera_capture_then_translate_witness :
  let frame := str "data:image/jpeg;base64,/9j/4AAQ" in
  let p := run [Mount mode_camera; GetUserMediaResolved 1;
                Capture true frame] in
  frame <> [] /\
  active_streams p = [] /\
  exists st' w' r,
    handleTranslate env_offline (component p) empty_world = (Return st', w') /\
    heap w' !! 1%nat = Some (obj_of_record r) /\
    type r = type_camera /\ original r = frame.
Proof.
  cbv zeta. split; [discriminate|].
  destruct (camera_capture_then_translate env_offline empty_world 1
              (str "data:image/jpeg;base64,/9j/4AAQ"))
    as (_ & Hactive & _ & _ & Hsave); [discriminate|].
  split; [exact Hactive | exact Hsave].
Defined.

End CameraReleases.

Lemma captureImage_stops_attached_stream_witness :
  let st :=
    ImageTranslator.component
      (ImageTranslator.run
         [ImageTranslator.Mount ImageTranslator.mode_camera;
          ImageTranslator.GetUserMediaResolved 1]) in
  let other := [ImageTranslator.fresh_track] in
  let streams := [[ImageTranslator.fresh_track]; other] in
  ImageTranslator.videoRef st
    = Some {| ImageTranslator.srcObject := Some 0%nat |} /\
  exists st' streams',
    ImageTranslator.captureImage true (str "data:,") st streams
    = (st', streams') /\
    streams' !! 0%nat
    = Some [{| ImageTranslator.live := false;
               ImageTranslator.stop_calls := 1 |}] /\
    streams' !! 1%nat = Some other.
Proof.
  cbv zeta. split; [reflexivity|].
  destruct (captureImage_stops_attached_stream
              (ImageTranslator.component
                 (ImageTranslator.run
                    [ImageTranslator.Mount ImageTranslator.mode_camera;
                     ImageTranslator.GetUserMediaResolved 1]))
              [[ImageTranslator.fresh_track]; [ImageTranslator.fresh_track]]
              0 [ImageTranslator.fresh_track] (str "data:,")
              eq_refl eq_refl eq_refl)
    as (st' & streams' & Hrun & _ & _ & Hs & _ & _ & Hother).
  exists st', streams'. split; [exact Hrun|]. split; [exact Hs|].
  rewrite Hother by discriminate. reflexivity.
Defined.

(** ** Buttons and handlers *)



(** X18.  A text that is not empty but made of white space only is
    submitted like any other: the button is enabled, no request goes to the
    model, the output is the empty string, and a record is saved whose
    [original] is the white space and whose [translated] is the empty
    string. *)
Theorem TextTranslator_blank_text_is_saved (E : Env)
    (st : TextTranslator.State) (w : World) :
  TextTranslator.input st <> [] ->
  blank (TextTranslator.input st) = true ->
  TextTranslator.loading st = false ->
  TextTranslator.submit_disabled st = false /\
  exists st' w' r,
    TextTranslator.handleTranslate E st w = (Return st', w') /\
    TextTranslator.output st' = [] /\
    heap w' !! S (length (heap w)) = Some (obj_of_record r) /\
    original r = TextTranslator.input st /\
    translated r = [] /\
    Forall (fun ev => match ev with
                      | EvGenerateContent _ => False
                      | _ => True
                      end) (logged w w').
Proof.
  intros Hin Hblank Hload. apply falsy_string_false in Hin. split.
  { unfold TextTranslator.submit_disabled. now rewrite Hload, Hin. }
  unfold TextTranslator.handleTranslate. rewrite Hin. simpl.
  unfold mbind at 1, M_bind at 1.
  rewrite translateText_cases, Hblank.
  match goal with
  | |- context [alloc (obj_of_partial ?p)] =>
      destruct (alloc_saveRecord_run E p w) as (n' & Hsave)
  end.
  cbv zeta in Hsave. unfold mbind, M_bind in *.
  destruct (alloc _ _) as [[record|e] w2]; [|discriminate].
  rewrite Hsave. run_M.
  eexists _, _, _. split; [reflexivity|]. split; [reflexivity|].
  simpl heap. split.
  { rewrite lookup_app_r by lia.
    replace (S (length (heap w)) - length (heap w))%nat with 1%nat by lia.
    reflexivity. }
  split; [reflexivity|]. split; [reflexivity|].
  rewrite logged_app.
  destruct (falsy_string (SHEET_URL E)); [repeat constructor|].
  destruct (fetch_outcome E _ _ _); repeat constructor.
Qed.

Lemma TextTranslator_blank_text_is_saved_witness :
  let st := text_screen [0x20; 0x0A; 0x3000]%N in
  TextTranslator.input st <> [] /\
  blank (TextTranslator.input st) = true /\
  exists st' w' r,
    TextTranslator.handleTranslate env_store_down st empty_world
    = (Return st', w') /\
    heap w' !! 1%nat = Some (obj_of_record r) /\
    translated r = [].
Proof.
  cbv zeta. split; [discriminate|]. split; [reflexivity|].
  destruct (TextTranslator_blank_text_is_saved env_store_down
              (text_screen [0x20; 0x0A; 0x3000]%N) empty_world)
    as (_ & st' & w' & r & Hrun & _ & Hheap & _ & Htr & _);
    [discriminate | reflexivity | reflexivity |].
  exists st', w', r. split; [exact Hrun|]. split; [exact Hheap | exact Htr].
Defined.
